(** * Adaptive image loader: a shallow embedding and its properties

    The development follows the TypeScript sources module by module:
    - [Loader]   : src/loader.ts   (low -> high source swap, one way)
    - [Velocity] : src/velocity.ts (scroll velocity, FAST/SLOW classification)
    - [Observer] : src/observer.ts (IntersectionObserver wrapper)
    - [Core]     : src/core.ts     (the orchestrator) and src/index.ts

    JavaScript numbers are IEEE 754 binary64 values, so they are modelled by
    Rocq's primitive floats.  DOM elements are compared by identity and are
    modelled by natural-number handles.  Closures over mutable variables
    become fields of an explicit state record that every operation takes and
    returns; a callback handed to the window or to the observer becomes a
    function that the corresponding event applies to the state.  Logging is
    left out. *)

From Stdlib Require Import Floats.
From stdpp Require Import gmap strings list.

Set Warnings "-inexact-float".

(** An [HTMLImageElement] reference. Object identity is the handle. *)
Abbreviation Element := nat (only parsing).

(** ** The DOM attributes the library reads and writes *)

Record Dom := mkDom {
  srcOf : gmap nat string;       (* element.src *)
  dataLabel : gmap nat string    (* the data-label attribute *)
}.

Definition emptyDom : Dom := mkDom ∅ ∅.

(** [element.src = s] *)
Definition setSrc (el : Element) (s : string) (d : Dom) : Dom :=
  mkDom (<[el := s]> (srcOf d)) (dataLabel d).

(** [element.getAttribute("data-label")], [None] standing for [null]. *)
Definition getLabel (el : Element) (d : Dom) : option string := dataLabel d !! el.

(** [element.setAttribute("data-label", s)] *)
Definition setLabel (el : Element) (s : string) (d : Dom) : Dom :=
  mkDom (srcOf d) (<[el := s]> (dataLabel d)).

(** JavaScript truthiness of [string | null]: [null] and the empty string
    are falsy. *)
Definition truthy (o : option string) : bool :=
  match o with
  | None => false
  | Some EmptyString => false
  | Some (String _ _) => true
  end.

(** ** src/loader.ts *)

Module Loader.

Record ImageResourceConfig := mkConfig {
  lowSrc : string;
  highSrc : string
}.

(** [interface TrackedImage extends ImageResourceConfig]: the inherited
    fields carry a prefix, as [lowSrc] and [highSrc] name the projections of
    the configuration. *)
Record TrackedImage := mkTracked {
  element : Element;
  t_lowSrc : string;
  t_highSrc : string;
  upgraded : bool
}.

(** The closure variable [images : Map<HTMLImageElement, TrackedImage>]. *)
Abbreviation Images := (gmap nat TrackedImage).

(** [tracked.upgraded = true] on the object held by the map. *)
Definition markUpgraded (t : TrackedImage) : TrackedImage :=
  mkTracked (element t) (t_lowSrc t) (t_highSrc t) true.

Definition registerImage (el : Element) (config : ImageResourceConfig)
    (s : Dom * Images) : Dom * Images :=
  let d := setSrc el (lowSrc config) s.1 in
  (d, <[el := mkTracked el (lowSrc config) (highSrc config) false]> s.2).

Definition upgradeImage (el : Element) (s : Dom * Images)
    : bool * (Dom * Images) :=
  match s.2 !! el with
  | None => (false, s)
  | Some tracked =>
      if upgraded tracked then (false, s)
      else (true, (setSrc (element tracked) (t_highSrc tracked) s.1,
                   <[el := markUpgraded tracked]> s.2))
  end.

Definition isUpgraded (el : Element) (images : Images) : bool :=
  match images !! el with
  | Some tracked => upgraded tracked
  | None => false
  end.

Definition unregisterImage (el : Element) (images : Images) : Images :=
  delete el images.

Definition clear (images : Images) : Images := ∅.

(** A run of [upgradeImage] calls, collecting the returned booleans. *)
Fixpoint upgradeAll (els : list Element) (s : Dom * Images)
    : list bool * (Dom * Images) :=
  match els with
  | [] => ([], s)
  | el :: rest =>
      let r := upgradeImage el s in
      let rs := upgradeAll rest r.2 in
      (r.1 :: rs.1, rs.2)
  end.

(** How many calls on [el] in a run returned [true]. *)
Fixpoint trueReturns (el : Element) (calls : list (Element * bool)) : nat :=
  match calls with
  | [] => 0
  | (x, r) :: rest =>
      (if bool_decide (x = el) && r then 1 else 0) + trueReturns el rest
  end.

End Loader.

(** ** The window: timeouts and the scroll listener

    [timers] is the list of active timeouts, each with the handle returned by
    [setTimeout] and the timeout argument as the caller passed it.  The only
    handler ever scheduled in this program is the closure created by
    [handleSpeedChange], so the table does not store handlers.
    [scrollListening] tells whether [handleScroll] is attached to the window's
    scroll event. *)

Record Window := mkWindow {
  timers : list (nat * float);
  nextTimerId : nat;
  scrollListening : bool
}.

Definition newWindow : Window := mkWindow [] 1 false.

(** [window.setTimeout(handler, timeout)]: a fresh handle. *)
Definition setTimeout (timeout : float) (win : Window) : nat * Window :=
  (nextTimerId win,
   mkWindow (timers win ++ [(nextTimerId win, timeout)])
            (S (nextTimerId win)) (scrollListening win)).

(** [window.clearTimeout(id)] *)
Definition clearTimeout (id : nat) (win : Window) : Window :=
  mkWindow (filter (λ t, t.1 ≠ id) (timers win))
           (nextTimerId win) (scrollListening win).

(** The timer initialisation steps of the HTML Standard: a timeout below zero
    is set to zero. *)
Definition effectiveDelay (timeout : float) : float :=
  if (timeout <? 0)%float then 0%float else timeout.

Definition pending (id : nat) (win : Window) : bool :=
  bool_decide (id ∈ (timers win).*1).

(** The callback of timeout [id] is about to run: the timeout is no longer
    active. *)
Definition expire (id : nat) (win : Window) : Window := clearTimeout id win.

Definition addScrollListener (win : Window) : Window :=
  mkWindow (timers win) (nextTimerId win) true.

Definition removeScrollListener (win : Window) : Window :=
  mkWindow (timers win) (nextTimerId win) false.

(** ** src/velocity.ts *)

Module Velocity.

Inductive ScrollSpeed := FAST | SLOW.

Record VelocityState := mkVelocityState {
  velocity : float;
  speed : ScrollSpeed
}.

(** The parameter and the [let] variables captured by [handleScroll]. *)
Record State := mkState {
  slowVelocityThreshold : float;
  lastY : float;
  lastTime : float;
  lastSpeed : ScrollSpeed
}.

(** One scroll event; [now] is [performance.now()] and [currentY] is
    [window.scrollY].  Returns the updated variables and the state handed to
    the listener. *)
Definition handleScroll (now currentY : float) (st : State)
    : State * VelocityState :=
  let dy := abs (currentY - lastY st)%float in
  let dt := (now - lastTime st)%float in
  let velocity := if (0 <? dt)%float then (dy / dt)%float else 0%float in
  let speed :=
    if (velocity <=? slowVelocityThreshold st)%float then SLOW else FAST in
  (mkState (slowVelocityThreshold st) currentY now speed,
   mkVelocityState velocity speed).

(** The variables at start, the window with the scroll listener attached,
    and the initial state handed to the listener. *)
Definition initScrollVelocity (slowVelocityThreshold scrollY now : float)
    (win : Window) : State * Window * VelocityState :=
  let st := mkState slowVelocityThreshold scrollY now SLOW in
  (st, addScrollListener win, mkVelocityState 0%float (lastSpeed st)).

(** [destroy()] of the returned controller. *)
Definition destroy (win : Window) : Window := removeScrollListener win.

End Velocity.

(** ** src/observer.ts *)

Module Observer.

Record VisibilityChange := mkChange {
  element : Element;
  isVisibleNow : bool
}.

(** [visibilityMap] and the targets observed by the [IntersectionObserver]. *)
Record State := mkState {
  visibilityMap : gmap nat bool;
  targets : list Element;
  threshold : float
}.

Definition createImageVisibilityObserver (threshold : float) : State :=
  mkState ∅ [] threshold.

(** The body of the loop in the observer callback for one entry
    ([entry.target], [entry.isIntersecting]): store the flag and return the
    change for the listener when the stored value was different. *)
Definition recordEntry (entry : Element * bool) (st : State)
    : State * option VisibilityChange :=
  let previous := visibilityMap st !! entry.1 in
  let st' := mkState (<[entry.1 := entry.2]> (visibilityMap st))
                     (targets st) (threshold st) in
  (st', if bool_decide (previous ≠ Some entry.2)
        then Some (mkChange entry.1 entry.2) else None).

Definition observeImage (img : Element) (st : State) : State :=
  mkState (<[img := false]> (visibilityMap st))
          (if bool_decide (img ∈ targets st) then targets st
           else targets st ++ [img])
          (threshold st).

Definition unobserveImage (img : Element) (st : State) : State :=
  mkState (delete img (visibilityMap st))
          (filter (λ x, x ≠ img) (targets st))
          (threshold st).

Definition isVisible (img : Element) (st : State) : bool :=
  bool_decide (visibilityMap st !! img = Some true).

Definition disconnect (st : State) : State := mkState ∅ [] (threshold st).

End Observer.

(** ** src/core.ts and src/index.ts *)

(** How a call ends: with a value, or with a thrown error. *)
Inductive Outcome (A : Type) :=
| Returned (a : A)
| Thrown (message : string).
Arguments Returned {A} a.
Arguments Thrown {A} message.

Module Core.

Export Velocity(ScrollSpeed, FAST, SLOW).

Record InitConfig := mkInitConfig {
  slowVelocityThreshold : float;
  slowDurationMs : float
}.

(** Everything [createCore] closes over, with the DOM and the window. *)
Record World := mkWorld {
  config : InitConfig;
  dom : Dom;
  window : Window;
  loader : Loader.Images;
  registeredImages : list Element;
  visibility : Observer.State;
  velocityController : Velocity.State;
  currentSpeed : ScrollSpeed;
  currentVelocity : float;
  isSlowStable : bool;
  slowTimer : option nat
}.

Definition setDomLoader (s : Dom * Loader.Images) (w : World) : World :=
  mkWorld (config w) s.1 (window w) s.2 (registeredImages w) (visibility w)
    (velocityController w) (currentSpeed w) (currentVelocity w)
    (isSlowStable w) (slowTimer w).

Definition setDom (d : Dom) (w : World) : World :=
  setDomLoader (d, loader w) w.

Definition setLoader (images : Loader.Images) (w : World) : World :=
  setDomLoader (dom w, images) w.

Definition setWindow (win : Window) (w : World) : World :=
  mkWorld (config w) (dom w) win (loader w) (registeredImages w) (visibility w)
    (velocityController w) (currentSpeed w) (currentVelocity w)
    (isSlowStable w) (slowTimer w).

Definition setRegisteredImages (l : list Element) (w : World) : World :=
  mkWorld (config w) (dom w) (window w) (loader w) l (visibility w)
    (velocityController w) (currentSpeed w) (currentVelocity w)
    (isSlowStable w) (slowTimer w).

Definition setVisibility (v : Observer.State) (w : World) : World :=
  mkWorld (config w) (dom w) (window w) (loader w) (registeredImages w) v
    (velocityController w) (currentSpeed w) (currentVelocity w)
    (isSlowStable w) (slowTimer w).

Definition setVelocityController (v : Velocity.State) (w : World) : World :=
  mkWorld (config w) (dom w) (window w) (loader w) (registeredImages w)
    (visibility w) v (currentSpeed w) (currentVelocity w)
    (isSlowStable w) (slowTimer w).

Definition setCurrent (state : Velocity.VelocityState) (w : World) : World :=
  mkWorld (config w) (dom w) (window w) (loader w) (registeredImages w)
    (visibility w) (velocityController w)
    (Velocity.speed state) (Velocity.velocity state)
    (isSlowStable w) (slowTimer w).

Definition setIsSlowStable (b : bool) (w : World) : World :=
  mkWorld (config w) (dom w) (window w) (loader w) (registeredImages w)
    (visibility w) (velocityController w) (currentSpeed w) (currentVelocity w)
    b (slowTimer w).

Definition setSlowTimer (t : option nat) (w : World) : World :=
  mkWorld (config w) (dom w) (window w) (loader w) (registeredImages w)
    (visibility w) (velocityController w) (currentSpeed w) (currentVelocity w)
    (isSlowStable w) t.

(** [registeredImages.add(element)]: a [Set] keeps insertion order and no
    duplicates. *)
Definition setAdd (el : Element) (l : list Element) : list Element :=
  if bool_decide (el ∈ l) then l else l ++ [el].

Definition isVisible (img : Element) (w : World) : bool :=
  Observer.isVisible img (visibility w).

Definition isUpgraded (img : Element) (w : World) : bool :=
  Loader.isUpgraded img (loader w).

Definition tryUpgradeImage (img : Element) (w : World) : World :=
  if negb (isSlowStable w) then w
  else if negb (bool_decide (img ∈ registeredImages w)) then w
  else if Loader.isUpgraded img (loader w) then w
  else setDomLoader (Loader.upgradeImage img (dom w, loader w)).2 w.

Definition attemptUpgradesForVisibleImages (w : World) : World :=
  foldl (λ w img, if negb (isVisible img w) then w else tryUpgradeImage img w)
        w (registeredImages w).

(** The handler given to [window.setTimeout] in [handleSpeedChange]. *)
Definition slowTimerCallback (w : World) : World :=
  let w := setSlowTimer None w in
  match currentSpeed w with
  | SLOW => attemptUpgradesForVisibleImages (setIsSlowStable true w)
  | FAST => w
  end.

Definition handleSpeedChange (w : World) : World :=
  match currentSpeed w with
  | FAST =>
      let w := setIsSlowStable false w in
      match slowTimer w with
      | Some id => setSlowTimer None (setWindow (clearTimeout id (window w)) w)
      | None => w
      end
  | SLOW =>
      if isSlowStable w then w
      else match slowTimer w with
           | None =>
               let r := setTimeout (slowDurationMs (config w)) (window w) in
               setSlowTimer (Some r.1) (setWindow r.2 w)
           | Some _ => w
           end
  end.

(** The listener given to [initScrollVelocity]. *)
Definition velocityListener (state : Velocity.VelocityState) (w : World)
    : World :=
  handleSpeedChange (setCurrent state w).

(** The listener given to [createImageVisibilityObserver]. *)
Definition visibilityListener (change : Observer.VisibilityChange) (w : World)
    : World :=
  if Observer.isVisibleNow change && isSlowStable w
  then tryUpgradeImage (Observer.element change) w
  else w.

(** One iteration of the loop in the observer callback. *)
Definition intersectionEntry (w : World) (entry : Element * bool) : World :=
  let r := Observer.recordEntry entry (visibility w) in
  let w := setVisibility r.1 w in
  match r.2 with
  | Some change => visibilityListener change w
  | None => w
  end.

(** The observer callback on a batch of entries. *)
Definition intersectionCallback (entries : list (Element * bool)) (w : World)
    : World :=
  foldl intersectionEntry w entries.

(** [registerImage] up to and including [visibility.observeImage(element)]. *)
Definition registerAndObserve (el : Element)
    (options : Loader.ImageResourceConfig) (w : World) : World :=
  let w := setRegisteredImages (setAdd el (registeredImages w)) w in
  let w := if negb (truthy (getLabel el (dom w)))
           then setDom (setLabel el (Loader.highSrc options) (dom w)) w
           else w in
  let w := setDomLoader
             (Loader.registerImage el
                (Loader.mkConfig (Loader.lowSrc options) (Loader.highSrc options))
                (dom w, loader w)) w in
  setVisibility (Observer.observeImage el (visibility w)) w.

(** [registerImage]: the statements above, then the check for an immediate
    upgrade. *)
Definition registerImage (el : Element) (options : Loader.ImageResourceConfig)
    (w : World) : World :=
  let w := registerAndObserve el options w in
  if isSlowStable w && isVisible el w then tryUpgradeImage el w else w.

Definition destroy (w : World) : World :=
  let w := setRegisteredImages [] w in
  let w := setVisibility (Observer.disconnect (visibility w)) w in
  let w := setLoader (Loader.clear (loader w)) w in
  let w := setWindow (Velocity.destroy (window w)) w in
  match slowTimer w with
  | Some id => setSlowTimer None (setWindow (clearTimeout id (window w)) w)
  | None => w
  end.

(** The body of [createCore(config)] in a page whose DOM is [d], at scroll
    position [scrollY] and time [now]: the closure state when the function
    returns.  [initScrollVelocity] has already called the velocity listener
    once by then. *)
Definition coreAtStart (config : InitConfig) (d : Dom) (scrollY now : float)
    : World :=
  let visibility := Observer.createImageVisibilityObserver 0.1%float in
  let init := Velocity.initScrollVelocity (slowVelocityThreshold config)
                scrollY now newWindow in
  let w := mkWorld config d init.1.2 ∅ [] visibility init.1.1
             SLOW 0%float false None in
  velocityListener init.2 w.

(** [createCore] has no [throw] and calls nothing that throws. *)
Definition createCore (config : InitConfig) (d : Dom) (scrollY now : float)
    : Outcome World :=
  Returned (coreAtStart config d scrollY now).

(** [initResourceLoader(config)] of src/index.ts: the returned object only
    forwards [registerImage] and [destroy] to the core. *)
Definition initResourceLoader (config : InitConfig) (d : Dom)
    (scrollY now : float) : Outcome World :=
  createCore config d scrollY now.

(** *** The callbacks and calls that drive the core *)

Inductive Event :=
| Scroll (now scrollY : float)
| TimerFired (id : nat)
| Intersections (entries : list (Element * bool))
| RegisterImage (el : Element) (options : Loader.ImageResourceConfig)
| Destroy.

(** The window delivers a scroll event only to an attached listener. *)
Definition scrollEvent (now scrollY : float) (w : World) : World :=
  if scrollListening (window w) then
    let r := Velocity.handleScroll now scrollY (velocityController w) in
    velocityListener r.2 (setVelocityController r.1 w)
  else w.

(** A timeout runs its handler only while it is active, and once. *)
Definition timerEvent (id : nat) (w : World) : World :=
  if pending id (window w)
  then slowTimerCallback (setWindow (expire id (window w)) w)
  else w.

(** The observer reports entries of observed targets only. *)
Definition intersectionEvent (entries : list (Element * bool)) (w : World)
    : World :=
  intersectionCallback
    (filter (λ e, e.1 ∈ Observer.targets (visibility w)) entries) w.

Definition step (w : World) (ev : Event) : World :=
  match ev with
  | Scroll now scrollY => scrollEvent now scrollY w
  | TimerFired id => timerEvent id w
  | Intersections entries => intersectionEvent entries w
  | RegisterImage el options => registerImage el options w
  | Destroy => destroy w
  end.

Definition run (w : World) (evs : list Event) : World := foldl step w evs.

(** The worlds the program can be in. *)
Inductive reachable : World → Prop :=
| reachable_init config d scrollY now w :
    createCore config d scrollY now = Returned w → reachable w
| reachable_step w ev : reachable w → reachable (step w ev).

(** What holds of every reachable world: the only active timeout is the one
    whose handle is in [slowTimer]; a FAST speed excludes stability and a
    pending timeout; stability excludes a pending timeout; tracked entries sit
    under their own element; every registered image is tracked. *)
Record invariant (w : World) : Prop := mkInvariant {
  inv_timers :
    timers (window w) =
      match slowTimer w with
      | Some id => [(id, slowDurationMs (config w))]
      | None => []
      end;
  inv_fast : currentSpeed w = FAST → isSlowStable w = false ∧ slowTimer w = None;
  inv_stable : isSlowStable w = true → slowTimer w = None;
  inv_keys : ∀ k t, loader w !! k = Some t → Loader.element t = k;
  inv_tracked : ∀ img, img ∈ registeredImages w → is_Some (loader w !! img)
}.

(** More of what holds of every reachable world: the [src] of a tracked image
    is the source its entry calls for; the loader tracks registered images
    only; the observer's targets are the registered images, each once; only
    registered images are marked visible; timer handles in use are below the
    next handle. *)
Record coherent (w : World) : Prop := mkCoherent {
  coh_src : ∀ k t, loader w !! k = Some t →
    srcOf (dom w) !! k
      = Some (if Loader.upgraded t then Loader.t_highSrc t
              else Loader.t_lowSrc t);
  coh_registered : ∀ el, is_Some (loader w !! el) → el ∈ registeredImages w;
  coh_targets : Observer.targets (visibility w) = registeredImages w;
  coh_nodup : NoDup (registeredImages w);
  coh_visible : ∀ el, isVisible el w = true → el ∈ registeredImages w;
  coh_fresh : ∀ id, id ∈ (timers (window w)).*1 → id < nextTimerId (window w)
}.

(** Every tracked entry sits under its own element. *)
Definition keyed (w : World) : Prop :=
  ∀ k t, loader w !! k = Some t → Loader.element t = k.

(** While the orchestrator is stable SLOW no registered visible image is
    left waiting for its upgrade. *)
Definition settled (w : World) : Prop :=
  isSlowStable w = true →
  ∀ el, el ∈ registeredImages w → isVisible el w = true →
        isUpgraded el w = true.

(** The states of the orchestrator as the design names them. *)
Inductive Phase := UNSTABLE | STABILIZING | STABLE_SLOW.

Definition phase (w : World) : Phase :=
  if isSlowStable w then STABLE_SLOW
  else match slowTimer w with
       | Some _ => STABILIZING
       | None => UNSTABLE
       end.

(** *** The configuration of the README and a few worlds built from it *)

Definition demoConfig : InitConfig := mkInitConfig 0.4%float 200%float.

Definition demoOptions : Loader.ImageResourceConfig :=
  Loader.mkConfig "low.jpg" "high.jpg".

(** Just created: the debounce timeout 1 is pending. *)
Definition demoStabilizing : World :=
  coreAtStart demoConfig emptyDom 0%float 0%float.

(** Image 7 registered and reported visible, still stabilizing. *)
Definition demoVisible : World :=
  run demoStabilizing [RegisterImage 7 demoOptions; Intersections [(7, true)]].

(** The timeout has fired: stable SLOW, image 7 upgraded. *)
Definition demoStable : World := step demoVisible (TimerFired 1).

(** A fast scroll sample (100 px in 10 ms) has arrived. *)
Definition demoFast : World := step demoStable (Scroll 10%float 100%float).

(** Stable SLOW, and image 8 registered but never reported visible. *)
Definition demoHidden : World := step demoStable (RegisterImage 8 demoOptions).

(** A configuration with a negative threshold and a negative duration. *)
Definition negativeConfig : InitConfig := mkInitConfig (-1)%float (-5)%float.

End Core.

(** ** Properties of the loader *)

Section LoaderFacts.
Import Loader.
Implicit Types (el : Element) (d : Dom) (images : Images) (s : Dom * Images).

Lemma upgradeImage_refused el s :
  isUpgraded el s.2 = true ∨ s.2 !! el = None →
  upgradeImage el s = (false, s).
Proof.
  unfold upgradeImage, isUpgraded.
  intros [H | H]; destruct (s.2 !! el) as [t|]; try done.
  simpl in H. by rewrite H.
Qed.

Lemma upgradeImage_performed el s t :
  s.2 !! el = Some t → upgraded t = false →
  upgradeImage el s =
    (true, (setSrc (element t) (t_highSrc t) s.1, <[el := markUpgraded t]> s.2)).
Proof. unfold upgradeImage. intros -> ->. done. Qed.

Lemma isUpgraded_upgradeImage_mono el el' s :
  isUpgraded el s.2 = true → isUpgraded el (upgradeImage el' s).2.2 = true.
Proof.
  intros H. unfold upgradeImage.
  destruct (s.2 !! el') as [t|] eqn:E; [|done].
  destruct (upgraded t) eqn:U; [done|]. simpl.
  unfold isUpgraded in *. destruct (decide (el' = el)) as [->|Hne].
  - by rewrite lookup_insert_eq.
  - by rewrite lookup_insert_ne.
Qed.

Lemma isUpgraded_upgradeAll_mono el els : ∀ s,
  isUpgraded el s.2 = true → isUpgraded el (upgradeAll els s).2.2 = true.
Proof.
  induction els as [|x els IH]; intros s H; simpl; [done|].
  apply IH. by apply isUpgraded_upgradeImage_mono.
Qed.

Lemma upgradeAll_results_length els : ∀ s,
  length (upgradeAll els s).1 = length els.
Proof. induction els as [|x els IH]; intros s; simpl; [done|]. by rewrite IH. Qed.

Lemma upgradeAll_refused el els : ∀ s i,
  isUpgraded el s.2 = true → els !! i = Some el →
  (upgradeAll els s).1 !! i = Some false.
Proof.
  induction els as [|x els IH]; intros s i H Hi; [done|].
  destruct i as [|i]; simpl in *.
  - injection Hi as ->. by rewrite upgradeImage_refused; [|left].
  - apply IH; [|done]. by apply isUpgraded_upgradeImage_mono.
Qed.

Lemma trueReturns_upgraded el els : ∀ s,
  isUpgraded el s.2 = true →
  trueReturns el (zip els (upgradeAll els s).1) = 0.
Proof.
  induction els as [|x els IH]; intros s H; simpl; [done|].
  rewrite IH by (by apply isUpgraded_upgradeImage_mono).
  case_bool_decide as Hx; [|done]. subst x.
  by rewrite upgradeImage_refused; [|left].
Qed.

Lemma upgradeImage_true_upgraded el s :
  (upgradeImage el s).1 = true → isUpgraded el (upgradeImage el s).2.2 = true.
Proof.
  unfold upgradeImage. destruct (s.2 !! el) as [t|] eqn:E; [|done].
  destruct (upgraded t); [done|]. intros _. simpl.
  unfold isUpgraded. by rewrite lookup_insert_eq.
Qed.

Lemma trueReturns_at_most_once el els : ∀ s,
  trueReturns el (zip els (upgradeAll els s).1) ≤ 1.
Proof.
  induction els as [|x els IH]; intros s; simpl; [lia|].
  case_bool_decide as Hx; simpl; [subst x|apply IH].
  destruct (upgradeImage el s).1 eqn:R; [|apply IH].
  rewrite trueReturns_upgraded; [lia|]. by apply upgradeImage_true_upgraded.
Qed.

Lemma registerImage_then_upgrade el cfg s :
  let s' := registerImage el cfg s in
  (upgradeImage el s').1 = true ∧
  srcOf (upgradeImage el s').2.1 !! el = Some (highSrc cfg) ∧
  isUpgraded el (upgradeImage el s').2.2 = true.
Proof.
  simpl. unfold upgradeImage, registerImage, isUpgraded. simpl.
  rewrite lookup_insert_eq. simpl. by rewrite !lookup_insert_eq.
Qed.

(** The loader's [upgradeImage]: refusal, performance, monotonicity and the
    count of successful calls. *)
Lemma loader_upgradeImage_once el s :
  (s.2 !! el = None ∨ isUpgraded el s.2 = true →
     upgradeImage el s = (false, s)) ∧
  (∀ t, s.2 !! el = Some t → upgraded t = false →
     (upgradeImage el s).1 = true ∧
     (upgradeImage el s).2.2 = <[el := markUpgraded t]> s.2 ∧
     isUpgraded el (upgradeImage el s).2.2 = true ∧
     srcOf (upgradeImage el s).2.1 !! element t = Some (t_highSrc t)) ∧
  (∀ cfg, (upgradeImage el (registerImage el cfg s)).1 = true ∧
     srcOf (upgradeImage el (registerImage el cfg s)).2.1 !! el
       = Some (highSrc cfg)) ∧
  (isUpgraded el s.2 = true → ∀ els,
     isUpgraded el (upgradeAll els s).2.2 = true ∧
     upgradeImage el (upgradeAll els s).2 = (false, (upgradeAll els s).2) ∧
     (∀ i, els !! i = Some el → (upgradeAll els s).1 !! i = Some false)) ∧
  (∀ els, trueReturns el (zip els (upgradeAll els s).1) ≤ 1).
Proof.
  split_and!.
  - intros [H|H]; apply upgradeImage_refused; auto.
  - intros t Ht Hu. rewrite (upgradeImage_performed el s t Ht Hu). simpl.
    split_and!; try done.
    + unfold isUpgraded. by rewrite lookup_insert_eq.
    + by rewrite lookup_insert_eq.
  - intros cfg. destruct (registerImage_then_upgrade el cfg s) as (H1 & H2 & _).
    by split.
  - intros H els. split_and!.
    + by apply isUpgraded_upgradeAll_mono.
    + apply upgradeImage_refused. left. by apply isUpgraded_upgradeAll_mono.
    + intros i Hi. by apply (upgradeAll_refused el).
  - intros els. exact (trueReturns_at_most_once el els s).
Qed.

(** Whatever the loader held for the element, upgraded or
    not, [registerImage] leaves it tracked with the new configuration and
    [upgraded = false], and the element's [src] is the new low source. *)
Lemma loader_registerImage_resets el cfg s :
  let s' := registerImage el cfg s in
  s'.2 !! el = Some (mkTracked el (lowSrc cfg) (highSrc cfg) false) ∧
  isUpgraded el s'.2 = false ∧
  srcOf s'.1 !! el = Some (lowSrc cfg).
Proof.
  simpl. unfold registerImage, isUpgraded. simpl.
  by rewrite !lookup_insert_eq.
Qed.

End LoaderFacts.

(** ** Properties of the orchestrator *)

Section CoreFacts.
Import Core.
Implicit Types (w : World) (img el : Element) (ev : Event).

Lemma setDomLoader_id w : setDomLoader (dom w, loader w) w = w.
Proof. by destruct w. Qed.

Lemma markUpgraded_upgraded t :
  Loader.upgraded t = true → Loader.markUpgraded t = t.
Proof. destruct t; simpl; by intros ->. Qed.

Lemma markUpgraded_idemp (o : option Loader.TrackedImage) :
  Loader.markUpgraded <$> (Loader.markUpgraded <$> o) = Loader.markUpgraded <$> o.
Proof. by destruct o. Qed.

(** [tryUpgradeImage] touches nothing but the DOM and the loader. *)
Lemma tryUpgradeImage_frame img w :
  ∃ s, tryUpgradeImage img w = setDomLoader s w.
Proof.
  unfold tryUpgradeImage. repeat case_match; eauto;
    exists (dom w, loader w); by rewrite setDomLoader_id.
Qed.

(** The guard of [tryUpgradeImage]. *)
Lemma tryUpgradeImage_guard img w :
  isSlowStable w = false ∨ img ∉ registeredImages w ∨ isUpgraded img w = true →
  tryUpgradeImage img w = w.
Proof.
  unfold tryUpgradeImage, isUpgraded. intros [H|[H|H]].
  - by rewrite H.
  - destruct (isSlowStable w); [|done]. simpl. by rewrite bool_decide_eq_false_2.
  - rewrite H. by repeat case_match.
Qed.

Lemma tryUpgradeImage_loader img w :
  loader (tryUpgradeImage img w) =
    if isSlowStable w && bool_decide (img ∈ registeredImages w)
    then alter Loader.markUpgraded img (loader w) else loader w.
Proof.
  unfold tryUpgradeImage. destruct (isSlowStable w); [|done]. simpl.
  case_bool_decide as Hreg; [|done]. simpl.
  unfold Loader.isUpgraded, Loader.upgradeImage. simpl.
  apply map_eq. intros k. rewrite lookup_alter.
  destruct (loader w !! img) as [t|] eqn:E.
  - destruct (Loader.upgraded t) eqn:U; simpl.
    + case_decide; [subst k|done]. rewrite E. simpl.
      by rewrite markUpgraded_upgraded.
    + case_decide; [subst k|by rewrite lookup_insert_ne].
      by rewrite lookup_insert_eq.
  - simpl. case_decide; [subst k|done]. by rewrite E.
Qed.

Lemma tryUpgradeImage_lookup img w x :
  loader (tryUpgradeImage img w) !! x =
    if isSlowStable w && bool_decide (img ∈ registeredImages w)
       && bool_decide (x = img)
    then Loader.markUpgraded <$> loader w !! x else loader w !! x.
Proof.
  rewrite tryUpgradeImage_loader.
  destruct (isSlowStable w); [|done]. simpl.
  case_bool_decide; [|done]. simpl. rewrite lookup_alter.
  case_bool_decide; case_decide; by simplify_eq.
Qed.

(** The body of the [forEach] in [attemptUpgradesForVisibleImages]. *)
Lemma attempt_fold_frame (l : list Element) : ∀ w,
  ∃ s, foldl (λ w img, if negb (isVisible img w) then w
                       else tryUpgradeImage img w) w l = setDomLoader s w.
Proof.
  induction l as [|a l IH]; intros w; simpl.
  - exists (dom w, loader w). by rewrite setDomLoader_id.
  - destruct (negb (isVisible a w)); [apply IH|].
    destruct (tryUpgradeImage_frame a w) as [s ->].
    destruct (IH (setDomLoader s w)) as [s' ->]. by exists s'.
Qed.

Lemma attempt_fold_lookup (l : list Element) : ∀ w x,
  loader (foldl (λ w img, if negb (isVisible img w) then w
                          else tryUpgradeImage img w) w l) !! x =
    if isSlowStable w && bool_decide (x ∈ l) && isVisible x w
       && bool_decide (x ∈ registeredImages w)
    then Loader.markUpgraded <$> loader w !! x else loader w !! x.
Proof.
  induction l as [|a l IH]; intros w x; simpl.
  - by rewrite andb_false_r.
  - set (w1 := if negb (isVisible a w) then w else tryUpgradeImage a w).
    assert (Hfr : ∃ s, w1 = setDomLoader s w).
    { unfold w1. destruct (negb (isVisible a w)).
      - exists (dom w, loader w). by rewrite setDomLoader_id.
      - apply tryUpgradeImage_frame. }
    destruct Hfr as [s Hs].
    assert (Hl : loader w1 !! x =
      if isSlowStable w && isVisible a w && bool_decide (a ∈ registeredImages w)
         && bool_decide (x = a)
      then Loader.markUpgraded <$> loader w !! x else loader w !! x).
    { unfold w1. destruct (isVisible a w); simpl.
      - rewrite tryUpgradeImage_lookup. by rewrite andb_true_r.
      - by rewrite andb_false_r. }
    assert (isSlowStable w1 = isSlowStable w) as Hst by (by rewrite Hs).
    assert (isVisible x w1 = isVisible x w) as Hvis by (by rewrite Hs).
    assert (registeredImages w1 = registeredImages w) as Hreg by (by rewrite Hs).
    rewrite IH, Hl, Hst, Hvis, Hreg. clear Hs Hl Hst Hvis Hreg.
    destruct (isSlowStable w); [|done]. simpl.
    destruct (decide (x = a)) as [->|Hne].
    + rewrite (bool_decide_eq_true_2 (a ∈ a :: l)) by (apply elem_of_cons; by left).
      rewrite (bool_decide_eq_true_2 (a = a)) by done.
      destruct (isVisible a w), (bool_decide (a ∈ registeredImages w)),
        (bool_decide (a ∈ l)); simpl; try done; apply markUpgraded_idemp.
    + rewrite (bool_decide_eq_false_2 (x = a)) by done.
      rewrite !andb_false_r.
      assert (bool_decide (x ∈ a :: l) = bool_decide (x ∈ l)) as ->; [|done].
      apply bool_decide_ext. rewrite elem_of_cons. intuition.
Qed.

(** *** The invariant *)

Lemma invariant_upgrades w w' :
  (∃ s, w' = setDomLoader s w) →
  (∀ x, loader w' !! x = loader w !! x
        ∨ loader w' !! x = Loader.markUpgraded <$> loader w !! x) →
  invariant w → invariant w'.
Proof.
  intros [s ->] Hl [H1 H2 H3 H4 H5]. split; simpl; try done.
  - intros k t Hk. destruct (Hl k) as [E|E]; simpl in E; rewrite E in Hk.
    + by apply H4.
    + destruct (loader w !! k) as [t0|] eqn:E0; [|done].
      simpl in Hk. injection Hk as <-. simpl. by apply H4.
  - intros img Hin. destruct (Hl img) as [E|E]; simpl in E; rewrite E.
    + by apply H5.
    + apply fmap_is_Some. by apply H5.
Qed.

Lemma invariant_tryUpgradeImage img w :
  invariant w → invariant (tryUpgradeImage img w).
Proof.
  apply invariant_upgrades; [apply tryUpgradeImage_frame|].
  intros x. rewrite tryUpgradeImage_lookup. case_match; auto.
Qed.

Lemma invariant_attempt w :
  invariant w → invariant (attemptUpgradesForVisibleImages w).
Proof.
  apply invariant_upgrades; [apply attempt_fold_frame|].
  intros x. unfold attemptUpgradesForVisibleImages.
  rewrite attempt_fold_lookup. case_match; auto.
Qed.

Lemma clear_only_timer (id : nat) (timeout : float) :
  filter (λ t : nat * float, t.1 ≠ id) [(id, timeout)] = [].
Proof. unfold filter. simpl. by rewrite decide_False by (simpl; intros ?; done). Qed.

Lemma invariant_velocityListener state w :
  invariant w → invariant (velocityListener state w).
Proof.
  intros [H1 H2 H3 H4 H5].
  unfold velocityListener, handleSpeedChange. simpl.
  destruct (Velocity.speed state) eqn:Es; simpl.
  - destruct (slowTimer w) as [id|] eqn:Et; split; simpl;
      rewrite ?Es, ?Et, ?H1, ?clear_only_timer; auto; done.
  - destruct (isSlowStable w) eqn:Est.
    + split; simpl; rewrite ?Es; auto; done.
    + destruct (slowTimer w) as [id|] eqn:Et; split; simpl;
        rewrite ?Es, ?Et, ?Est, ?H1; auto; done.
Qed.

Lemma invariant_setVelocityController v w :
  invariant w → invariant (setVelocityController v w).
Proof. by intros [H1 H2 H3 H4 H5]. Qed.

Lemma invariant_setVisibility v w :
  invariant w → invariant (setVisibility v w).
Proof. by intros [H1 H2 H3 H4 H5]. Qed.

Lemma invariant_scrollEvent now y w :
  invariant w → invariant (scrollEvent now y w).
Proof.
  intros H. unfold scrollEvent. case_match; [|done].
  by apply invariant_velocityListener, invariant_setVelocityController.
Qed.

Lemma invariant_timerEvent id w :
  invariant w → invariant (timerEvent id w).
Proof.
  intros H. unfold timerEvent, pending. case_bool_decide as Hp; [|done].
  destruct H as [H1 H2 H3 H4 H5].
  assert (slowTimer w = Some id) as Ht.
  { rewrite H1 in Hp. destruct (slowTimer w); simpl in Hp.
    - apply list_elem_of_singleton in Hp. by subst.
    - by apply elem_of_nil in Hp. }
  assert (currentSpeed w = SLOW) as Hs.
  { destruct (currentSpeed w) eqn:E; [|done].
    destruct (H2 eq_refl) as [_ Hn]. congruence. }
  unfold slowTimerCallback. simpl. rewrite Hs.
  apply invariant_attempt.
  split; simpl; rewrite ?Hs, ?H1, ?Ht, ?clear_only_timer; done.
Qed.

Lemma invariant_intersectionEntry w entry :
  invariant w → invariant (intersectionEntry w entry).
Proof.
  intros H. unfold intersectionEntry. case_match.
  - unfold visibilityListener. case_match.
    + by apply invariant_tryUpgradeImage, invariant_setVisibility.
    + by apply invariant_setVisibility.
  - by apply invariant_setVisibility.
Qed.

Lemma invariant_intersectionCallback entries : ∀ w,
  invariant w → invariant (intersectionCallback entries w).
Proof.
  unfold intersectionCallback.
  induction entries as [|e entries IH]; intros w H; simpl; [done|].
  by apply IH, invariant_intersectionEntry.
Qed.

Lemma elem_of_setAdd el x (l : list Element) :
  x ∈ setAdd el l ↔ x = el ∨ x ∈ l.
Proof.
  unfold setAdd. case_bool_decide.
  - split; [by right|]. intros [->|?]; done.
  - rewrite elem_of_app, list_elem_of_singleton. tauto.
Qed.

(** What [registerAndObserve] leaves in each variable. *)
Lemma registerAndObserve_fields el options w :
  let w' := registerAndObserve el options w in
  config w' = config w ∧ window w' = window w ∧
  registeredImages w' = setAdd el (registeredImages w) ∧
  loader w' = <[el := Loader.mkTracked el (Loader.lowSrc options)
                        (Loader.highSrc options) false]> (loader w) ∧
  visibility w' = Observer.observeImage el (visibility w) ∧
  velocityController w' = velocityController w ∧
  currentSpeed w' = currentSpeed w ∧ currentVelocity w' = currentVelocity w ∧
  isSlowStable w' = isSlowStable w ∧ slowTimer w' = slowTimer w ∧
  srcOf (dom w') = <[el := Loader.lowSrc options]> (srcOf (dom w)).
Proof.
  unfold registerAndObserve. simpl.
  destruct (negb (truthy (getLabel el (dom w)))); simpl; by repeat split.
Qed.

Lemma isVisible_registerAndObserve el options w :
  isVisible el (registerAndObserve el options w) = false.
Proof.
  unfold isVisible.
  destruct (registerAndObserve_fields el options w)
    as (_ & _ & _ & _ & -> & _).
  unfold Observer.isVisible, Observer.observeImage. simpl.
  by rewrite lookup_insert_eq.
Qed.

(** The check at the end of [registerImage] never passes. *)
Lemma registerImage_no_upgrade el options w :
  registerImage el options w = registerAndObserve el options w.
Proof.
  unfold registerImage. simpl.
  by rewrite isVisible_registerAndObserve, andb_false_r.
Qed.

Lemma invariant_registerImage el options w :
  invariant w → invariant (registerImage el options w).
Proof.
  intros [H1 H2 H3 H4 H5]. rewrite registerImage_no_upgrade.
  destruct (registerAndObserve_fields el options w)
    as (Hc & Hw & Hr & Hl & Hv & Hvc & Hs & Hcv & Hst & Ht & Hsrc).
  split; rewrite ?Hc, ?Hw, ?Hr, ?Hl, ?Hs, ?Hst, ?Ht; try done.
  - intros k t. destruct (decide (k = el)) as [->|Hne].
    + rewrite lookup_insert_eq. by intros [= <-].
    + rewrite lookup_insert_ne by done. apply H4.
  - intros img [->|Hin]%elem_of_setAdd.
    + by rewrite lookup_insert_eq.
    + destruct (decide (img = el)) as [->|Hne].
      * by rewrite lookup_insert_eq.
      * rewrite lookup_insert_ne by done. by apply H5.
Qed.

Lemma invariant_destroy w : invariant w → invariant (destroy w).
Proof.
  intros [H1 H2 H3 H4 H5]. unfold destroy. simpl.
  destruct (slowTimer w) as [id|] eqn:Et; split; simpl;
    rewrite ?Et, ?H1, ?clear_only_timer; try done;
    try (intros Hf; by destruct (H2 Hf));
    intros img Hin; by apply elem_of_nil in Hin.
Qed.

Lemma invariant_coreAtStart config d scrollY now :
  invariant (coreAtStart config d scrollY now).
Proof.
  split; simpl; try done. intros img Hin. by apply elem_of_nil in Hin.
Qed.

Lemma invariant_step w ev : invariant w → invariant (step w ev).
Proof.
  destruct ev; simpl.
  - apply invariant_scrollEvent.
  - apply invariant_timerEvent.
  - apply invariant_intersectionCallback.
  - apply invariant_registerImage.
  - apply invariant_destroy.
Qed.

Lemma reachable_invariant w : reachable w → invariant w.
Proof.
  induction 1 as [config d scrollY now w Hc | w ev _ IH].
  - injection Hc as <-. apply invariant_coreAtStart.
  - by apply invariant_step.
Qed.

Lemma reachable_run evs : ∀ w, reachable w → reachable (run w evs).
Proof.
  induction evs as [|ev evs IH]; intros w H; simpl; [done|].
  apply IH. by constructor.
Qed.

(** *** Registration *)

Lemma observeImage_not_visible img (st : Observer.State) :
  Observer.isVisible img (Observer.observeImage img st) = false.
Proof.
  unfold Observer.isVisible, Observer.observeImage. simpl.
  by rewrite lookup_insert_eq.
Qed.

(** C10. Right after [registerImage] returns, the visibility tracker reports
    the registered element as not visible, whatever it reported before:
    [observeImage] stores [false] for the element even when the stored flag
    was [true]. So the visibility conjunct of the check at the end of
    [registerImage] is [false], the check fails, and [registerImage] is
    exactly its statements up to [observeImage]. *)
Theorem registerImage_leaves_invisible el options w :
  (∀ st, Observer.visibilityMap (Observer.observeImage el st) !! el
           = Some false) ∧
  isVisible el (registerAndObserve el options w) = false ∧
  isSlowStable (registerAndObserve el options w)
    && isVisible el (registerAndObserve el options w) = false ∧
  registerImage el options w = registerAndObserve el options w ∧
  isVisible el (registerImage el options w) = false.
Proof.
  split_and!.
  - intros st. unfold Observer.observeImage. simpl. apply lookup_insert_eq.
  - apply isVisible_registerAndObserve.
  - by rewrite isVisible_registerAndObserve, andb_false_r.
  - apply registerImage_no_upgrade.
  - rewrite registerImage_no_upgrade. apply isVisible_registerAndObserve.
Qed.

Lemma registerImage_not_upgraded el options w :
  isUpgraded el (registerImage el options w) = false ∧
  srcOf (dom (registerImage el options w)) !! el = Some (Loader.lowSrc options).
Proof.
  rewrite registerImage_no_upgrade.
  destruct (registerAndObserve_fields el options w)
    as (_ & _ & _ & Hl & _ & _ & _ & _ & _ & _ & Hsrc).
  unfold isUpgraded, Loader.isUpgraded. rewrite Hl, Hsrc.
  by rewrite !lookup_insert_eq.
Qed.

Lemma reachable_demoStabilizing : reachable demoStabilizing.
Proof. by apply (reachable_init demoConfig emptyDom 0%float 0%float). Qed.

Lemma reachable_demoVisible : reachable demoVisible.
Proof. apply reachable_run, reachable_demoStabilizing. Qed.

Lemma reachable_demoStable : reachable demoStable.
Proof. apply reachable_step, reachable_demoVisible. Qed.

Lemma reachable_demoFast : reachable demoFast.
Proof. apply reachable_step, reachable_demoStable. Qed.

(** C2 on a concrete run. The world [demoStable] is reachable, the
    orchestrator is stable SLOW in it and image 7 is tracked as visible.
    Registering image 7 there does not upgrade it: when [registerImage]
    returns the image is not upgraded and shows its low source, although the
    orchestrator is still stable SLOW. *)
Theorem register_while_stable_and_visible :
  reachable demoStable ∧
  isSlowStable demoStable = true ∧
  isVisible 7 demoStable = true ∧
  isUpgraded 7 (registerImage 7 demoOptions demoStable) = false ∧
  srcOf (dom (registerImage 7 demoOptions demoStable)) !! 7 = Some "low.jpg" ∧
  isSlowStable (registerImage 7 demoOptions demoStable) = true.
Proof.
  split; [apply reachable_demoStable|]. by vm_compute.
Qed.

(** C9. Registering an element resets it, whatever was tracked for it, also
    when it had been upgraded: in the loader the entry is overwritten with
    the new low and high sources and [upgraded = false], and the element's
    [src] is set to the new low source; the same holds when the element is
    registered through the core's [registerImage]. The next [upgradeImage]
    then applies the high source of the last registration. *)
Theorem registerImage_resets el cfg (s : Dom * Loader.Images) w :
  (Loader.registerImage el cfg s).2 !! el
    = Some (Loader.mkTracked el (Loader.lowSrc cfg) (Loader.highSrc cfg) false) ∧
  Loader.isUpgraded el (Loader.registerImage el cfg s).2 = false ∧
  srcOf (Loader.registerImage el cfg s).1 !! el = Some (Loader.lowSrc cfg) ∧
  srcOf (Loader.upgradeImage el (Loader.registerImage el cfg s)).2.1 !! el
    = Some (Loader.highSrc cfg) ∧
  loader (registerImage el cfg w) !! el
    = Some (Loader.mkTracked el (Loader.lowSrc cfg) (Loader.highSrc cfg) false) ∧
  isUpgraded el (registerImage el cfg w) = false ∧
  srcOf (dom (registerImage el cfg w)) !! el = Some (Loader.lowSrc cfg).
Proof.
  destruct (loader_registerImage_resets el cfg s) as (H1 & H2 & H3).
  destruct (registerImage_then_upgrade el cfg s) as (_ & H4 & _).
  destruct (registerImage_not_upgraded el cfg w) as (H6 & H7).
  split_and!; try done.
  rewrite registerImage_no_upgrade.
  destruct (registerAndObserve_fields el cfg w)
    as (_ & _ & _ & -> & _). apply lookup_insert_eq.
Qed.

(** An upgraded image registered again: a run of the loader alone. *)
Example reregister_after_upgrade :
  let s1 := Loader.registerImage 7 demoOptions (emptyDom, ∅) in
  let s2 := (Loader.upgradeImage 7 s1).2 in
  let s3 := Loader.registerImage 7 (Loader.mkConfig "low2.jpg" "high2.jpg") s2 in
  Loader.isUpgraded 7 s2.2 = true ∧ srcOf s2.1 !! 7 = Some "high.jpg" ∧
  Loader.isUpgraded 7 s3.2 = false ∧ srcOf s3.1 !! 7 = Some "low2.jpg".
Proof. by vm_compute. Qed.

(** *** Speed changes and the debounce timeout *)

Lemma pending_clearTimeout id win : pending id (clearTimeout id win) = false.
Proof.
  unfold pending, clearTimeout. simpl. apply bool_decide_eq_false_2.
  intros (t & Ht & Hin)%list_elem_of_fmap.
  apply list_elem_of_filter in Hin as [Hne _]. by subst.
Qed.

Lemma timerEvent_not_pending id w :
  pending id (window w) = false → timerEvent id w = w.
Proof. unfold timerEvent. by intros ->. Qed.

Lemma timerEvent_no_timers id w :
  timers (window w) = [] → timerEvent id w = w.
Proof.
  intros H. apply timerEvent_not_pending. unfold pending. rewrite H.
  apply bool_decide_eq_false_2. simpl. apply not_elem_of_nil.
Qed.

(** The velocity listener on a FAST state. *)
Lemma velocityListener_fast state w :
  Velocity.speed state = FAST →
  let w' := velocityListener state w in
  currentSpeed w' = FAST ∧ isSlowStable w' = false ∧ slowTimer w' = None ∧
  phase w' = UNSTABLE ∧
  (∀ id, slowTimer w = Some id → pending id (window w') = false) ∧
  (invariant w → timers (window w') = []) ∧
  loader w' = loader w ∧ dom w' = dom w.
Proof.
  intros Hs. unfold velocityListener, handleSpeedChange, phase. simpl.
  rewrite Hs. simpl.
  destruct (slowTimer w) as [id|] eqn:Et; simpl; rewrite ?Et;
    split_and!; try done.
  - intros id' [= <-]. apply pending_clearTimeout.
  - intros [H1 _ _ _ _]. rewrite H1, Et. apply clear_only_timer.
  - intros [H1 _ _ _ _]. by rewrite H1, Et.
Qed.

(** C3. A scroll sample that classifies as FAST wins at once, in every
    state of the orchestrator: when the scroll handler returns,
    [isSlowStable] is [false], no timer handle is held (the state is
    UNSTABLE), and the timeout whose handle was held is no longer active.
    In a reachable world no timeout at all is active then, so no later
    timer event can do anything. *)
Theorem fast_wins_immediately w now scrollY :
  scrollListening (window w) = true →
  Velocity.speed
    (Velocity.handleScroll now scrollY (velocityController w)).2 = FAST →
  let w' := step w (Scroll now scrollY) in
  currentSpeed w' = FAST ∧
  isSlowStable w' = false ∧
  slowTimer w' = None ∧
  phase w' = UNSTABLE ∧
  (∀ id, slowTimer w = Some id → pending id (window w') = false) ∧
  (reachable w → timers (window w') = [] ∧ ∀ id, step w' (TimerFired id) = w').
Proof.
  intros Hl Hs. simpl. unfold scrollEvent. rewrite Hl.
  set (r := Velocity.handleScroll now scrollY (velocityController w)) in *.
  destruct (velocityListener_fast r.2 (setVelocityController r.1 w) Hs)
    as (H0 & H1 & H2 & H3 & H4 & H5 & _).
  split_and!; try done.
  intros Hr. assert (timers (window (velocityListener r.2
                       (setVelocityController r.1 w))) = []) as Ht.
  { apply H5, invariant_setVelocityController. by apply reachable_invariant. }
  split; [done|]. intros id. by apply timerEvent_no_timers.
Qed.

Lemma fast_wins_immediately_witness :
  phase demoStable = STABLE_SLOW ∧
  isSlowStable (step demoStable (Scroll 10%float 100%float)) = false ∧
  slowTimer (step demoStable (Scroll 10%float 100%float)) = None ∧
  timers (window (step demoStable (Scroll 10%float 100%float))) = [].
Proof.
  split; [reflexivity|].
  destruct (fast_wins_immediately demoStable 10%float 100%float)
    as (_ & H1 & H2 & _ & _ & H5); [reflexivity | reflexivity |].
  split; [exact H1|]. split; [exact H2|].
  exact (proj1 (H5 reachable_demoStable)).
Defined.

(** The velocity listener on a SLOW state. *)
Lemma velocityListener_slow_starts state w :
  Velocity.speed state = SLOW → isSlowStable w = false → slowTimer w = None →
  let w' := velocityListener state w in
  slowTimer w' = Some (nextTimerId (window w)) ∧
  timers (window w') =
    timers (window w) ++ [(nextTimerId (window w), slowDurationMs (config w))] ∧
  isSlowStable w' = false ∧ phase w' = STABILIZING.
Proof.
  intros Hs Hst Ht. unfold velocityListener, handleSpeedChange, phase. simpl.
  rewrite Hs, Hst, Ht. simpl. by rewrite Hst.
Qed.

Lemma velocityListener_slow_noop state w :
  Velocity.speed state = SLOW →
  isSlowStable w = true ∨ is_Some (slowTimer w) →
  velocityListener state w = setCurrent state w.
Proof.
  intros Hs H. unfold velocityListener, handleSpeedChange. simpl. rewrite Hs.
  destruct (isSlowStable w); [done|].
  destruct H as [H|[id H]]; [done|]. by rewrite H.
Qed.

Lemma slowTimerCallback_slow w :
  currentSpeed w = SLOW →
  let w' := slowTimerCallback w in
  isSlowStable w' = true ∧ slowTimer w' = None ∧ phase w' = STABLE_SLOW ∧
  (∀ img, img ∈ registeredImages w → isVisible img w = true →
     loader w' !! img = Loader.markUpgraded <$> loader w !! img) ∧
  (∀ img, img ∉ registeredImages w ∨ isVisible img w = false →
     loader w' !! img = loader w !! img).
Proof.
  intros Hs. unfold slowTimerCallback. simpl. rewrite Hs.
  set (w1 := setIsSlowStable true (setSlowTimer None w)).
  destruct (attempt_fold_frame (registeredImages w1) w1) as [s Hfr].
  unfold attemptUpgradesForVisibleImages, phase.
  split_and!.
  - by rewrite Hfr.
  - by rewrite Hfr.
  - by rewrite Hfr.
  - intros img Hin Hv. rewrite attempt_fold_lookup. simpl.
    rewrite bool_decide_eq_true_2 by done.
    change (isVisible img w1) with (isVisible img w). by rewrite Hv.
  - intros img H. rewrite attempt_fold_lookup. simpl.
    change (isVisible img w1) with (isVisible img w).
    destruct H as [H| ->].
    + by rewrite (bool_decide_eq_false_2 _ H).
    + by rewrite andb_false_r.
Qed.

Lemma slowTimerCallback_fast w :
  currentSpeed w = FAST → slowTimerCallback w = setSlowTimer None w.
Proof. intros Hs. unfold slowTimerCallback. simpl. by rewrite Hs. Qed.

Lemma setSlowTimer_id w : slowTimer w = None → setSlowTimer None w = w.
Proof. destruct w; simpl. by intros ->. Qed.


Lemma reachable_fast_no_timer w :
  reachable w → currentSpeed w = FAST → slowTimer w = None.
Proof.
  intros Hr Hs. destruct (reachable_invariant w Hr) as [_ H2 _ _ _].
  by destruct (H2 Hs).
Qed.

(** C4. Debounce. A SLOW sample starts the debounce timeout exactly when the
    orchestrator is not stable and holds no timer handle: then a timeout of
    [slowDurationMs] is added and its handle kept; in the other cases (stable
    already, or a timeout pending) the sample only records the speed and the
    velocity and neither the window's timeouts nor any other variable change.
    When the timeout's handler runs and the speed is SLOW, the orchestrator
    becomes stable SLOW and every registered image that is marked visible has
    its loader entry upgraded, while images not registered or not visible keep
    their entry. When the handler runs and the speed is FAST it only clears
    the timer handle, which is already clear in such a state: nothing
    changes. *)
Theorem debounce_semantics w :
  (∀ state, Velocity.speed state = SLOW →
     (isSlowStable w = false → slowTimer w = None →
        slowTimer (velocityListener state w) = Some (nextTimerId (window w)) ∧
        timers (window (velocityListener state w)) =
          timers (window w)
            ++ [(nextTimerId (window w), slowDurationMs (config w))] ∧
        isSlowStable (velocityListener state w) = false ∧
        phase (velocityListener state w) = STABILIZING) ∧
     (isSlowStable w = true ∨ is_Some (slowTimer w) →
        velocityListener state w = setCurrent state w) ∧
     (timers (window (velocityListener state w)) ≠ timers (window w) ↔
        isSlowStable w = false ∧ slowTimer w = None)) ∧
  (currentSpeed w = SLOW →
     isSlowStable (slowTimerCallback w) = true ∧
     slowTimer (slowTimerCallback w) = None ∧
     phase (slowTimerCallback w) = STABLE_SLOW ∧
     (∀ img, img ∈ registeredImages w → isVisible img w = true →
        loader (slowTimerCallback w) !! img
          = Loader.markUpgraded <$> loader w !! img) ∧
     (∀ img, img ∉ registeredImages w ∨ isVisible img w = false →
        loader (slowTimerCallback w) !! img = loader w !! img) ∧
     (reachable w → ∀ img, img ∈ registeredImages w → isVisible img w = true →
        isUpgraded img (slowTimerCallback w) = true)) ∧
  (currentSpeed w = FAST →
     slowTimerCallback w = setSlowTimer None w ∧
     (slowTimer w = None → slowTimerCallback w = w) ∧
     (reachable w → slowTimerCallback w = w)).
Proof.
  split_and!.
  - intros state Hs. split_and!.
    + intros Hst Ht. by apply velocityListener_slow_starts.
    + by apply velocityListener_slow_noop.
    + split.
      * intros Hne. destruct (isSlowStable w) eqn:Hst.
        { exfalso. apply Hne.
          rewrite velocityListener_slow_noop; [done..|by left]. }
        destruct (slowTimer w) as [id|] eqn:Ht; [|done].
        exfalso. apply Hne.
        rewrite velocityListener_slow_noop; [done..|]. right. by rewrite Ht.
      * intros [Hst Ht].
        destruct (velocityListener_slow_starts state w Hs Hst Ht)
          as (_ & -> & _).
        intros Heq. apply (f_equal length) in Heq.
        rewrite length_app in Heq. simpl in Heq. lia.
  - intros Hs. destruct (slowTimerCallback_slow w Hs) as (H1 & H2 & H3 & H4 & H5).
    split_and!; try done.
    intros Hr img Hin Hv. unfold isUpgraded, Loader.isUpgraded.
    rewrite (H4 img Hin Hv).
    destruct (reachable_invariant w Hr) as [_ _ _ _ Htr].
    by destruct (Htr img Hin) as [t ->].
  - intros Hs. rewrite slowTimerCallback_fast by done. split_and!; [done|..].
    + apply setSlowTimer_id.
    + intros Hr. by apply setSlowTimer_id, reachable_fast_no_timer.
Qed.

Lemma debounce_semantics_witness :
  (* a SLOW sample in the UNSTABLE world starts timeout 2 *)
  slowTimer (velocityListener (Velocity.mkVelocityState 0.1%float SLOW) demoFast)
    = Some 2 ∧
  timers (window
    (velocityListener (Velocity.mkVelocityState 0.1%float SLOW) demoFast))
    = [(2, 200%float)] ∧
  (* a SLOW sample while the first timeout is pending restarts nothing *)
  timers (window
    (velocityListener (Velocity.mkVelocityState 0.1%float SLOW) demoVisible))
    = [(1, 200%float)] ∧
  (* the handler on a SLOW world makes it stable and upgrades image 7 *)
  isSlowStable (slowTimerCallback demoVisible) = true ∧
  isUpgraded 7 (slowTimerCallback demoVisible) = true ∧
  (* the handler on a FAST world changes nothing *)
  slowTimerCallback demoFast = demoFast.
Proof.
  destruct (debounce_semantics demoFast) as (Hs & _ & Hf).
  destruct (Hs (Velocity.mkVelocityState 0.1%float SLOW) eq_refl)
    as (Hstart & _ & _).
  destruct (Hstart eq_refl eq_refl) as (H1 & H2 & _).
  destruct (debounce_semantics demoVisible) as (Hs' & Hcb & _).
  destruct (Hs' (Velocity.mkVelocityState 0.1%float SLOW) eq_refl)
    as (_ & Hnoop & _).
  destruct (Hcb eq_refl) as (H3 & _ & _ & _ & _ & H4).
  destruct (Hf eq_refl) as (_ & _ & H5).
  split; [exact H1|]. split; [exact H2|].
  split; [rewrite Hnoop; [reflexivity | right; by eexists]|].
  split; [exact H3|].
  split; [apply (H4 reachable_demoVisible); [|reflexivity]|].
  - apply (bool_decide_unpack _). by vm_compute.
  - exact (H5 reachable_demoFast).
Defined.


(** *** Visibility gating *)

(** An entry that does not report [el] as visible leaves [el] invisible and
    its loader entry alone. *)
Lemma intersectionEntry_gated w entry el :
  entry ≠ (el, true) → isVisible el w = false →
  isVisible el (intersectionEntry w entry) = false ∧
  loader (intersectionEntry w entry) !! el = loader w !! el.
Proof.
  destruct entry as [x b]. intros Hne Hv.
  unfold intersectionEntry, Observer.recordEntry. simpl.
  set (w1 := setVisibility _ w).
  assert (isVisible el w1 = false) as Hv1.
  { unfold isVisible, Observer.isVisible in *. simpl.
    destruct (decide (x = el)) as [->|Hx].
    - rewrite lookup_insert_eq. destruct b; [done|].
      by apply bool_decide_eq_false_2.
    - by rewrite lookup_insert_ne. }
  case_bool_decide; [|done].
  unfold visibilityListener. simpl.
  destruct (b && isSlowStable w) eqn:Hb; [|done].
  destruct (tryUpgradeImage_frame x w1) as [s Hfr].
  split; [by rewrite Hfr|].
  rewrite tryUpgradeImage_lookup.
  destruct (decide (el = x)) as [->|Hx].
  - destruct b; [done|]. by simpl in Hb.
  - rewrite (bool_decide_eq_false_2 _ Hx). by rewrite andb_false_r.
Qed.

Lemma intersectionCallback_gated entries el : ∀ w,
  (el, true) ∉ entries → isVisible el w = false →
  isVisible el (intersectionCallback entries w) = false ∧
  loader (intersectionCallback entries w) !! el = loader w !! el.
Proof.
  unfold intersectionCallback.
  induction entries as [|e entries IH]; intros w Hnot Hv; simpl; [done|].
  apply not_elem_of_cons in Hnot as [Hne Hnot].
  destruct (intersectionEntry_gated w e el) as [Hv1 Hl1]; [done..|].
  destruct (IH (intersectionEntry w e) Hnot Hv1) as [Hv2 Hl2].
  split; [done|]. by rewrite Hl2.
Qed.

(** One event: an image that is invisible, and that the event does not
    report as visible, stays invisible and is not upgraded by the event. *)
Lemma step_gated w ev el :
  isVisible el w = false →
  (∀ entries, ev = Intersections entries → (el, true) ∉ entries) →
  isUpgraded el w = false →
  isVisible el (step w ev) = false ∧ isUpgraded el (step w ev) = false.
Proof.
  intros Hv Hev Hu. destruct ev as [now y|id|entries|x options|]; simpl.
  - unfold scrollEvent. case_match; [|done].
    unfold velocityListener, handleSpeedChange. simpl.
    by repeat case_match.
  - unfold timerEvent. case_match; [|done].
    unfold slowTimerCallback. simpl.
    destruct (currentSpeed w); [done|].
    set (w1 := setIsSlowStable true _).
    destruct (attempt_fold_frame (registeredImages w1) w1) as [s Hfr].
    unfold attemptUpgradesForVisibleImages.
    split; [by rewrite Hfr|].
    unfold isUpgraded, Loader.isUpgraded. rewrite attempt_fold_lookup.
    change (isVisible el w1) with (isVisible el w). rewrite Hv.
    by rewrite andb_false_r.
  - destruct (intersectionCallback_gated
                (filter (λ e, e.1 ∈ Observer.targets (visibility w)) entries)
                el w) as [Hv' Hl']; [|done|].
    + intros [_ Hin]%list_elem_of_filter. by apply (Hev entries).
    + split; [done|]. unfold isUpgraded, Loader.isUpgraded in *.
      unfold intersectionEvent. by rewrite Hl'.
  - rewrite registerImage_no_upgrade.
    destruct (registerAndObserve_fields x options w)
      as (_ & _ & _ & Hl & Hvis & _).
    unfold isVisible, isUpgraded, Loader.isUpgraded in *. rewrite Hl, Hvis.
    unfold Observer.isVisible, Observer.observeImage in *. simpl.
    destruct (decide (x = el)) as [->|Hx].
    + by rewrite !lookup_insert_eq.
    + by rewrite !lookup_insert_ne.
  - unfold destroy. simpl. by destruct (slowTimer w).
Qed.

Lemma run_gated evs el : ∀ w,
  isVisible el w = false →
  (∀ entries, Intersections entries ∈ evs → (el, true) ∉ entries) →
  isUpgraded el w = false →
  isVisible el (run w evs) = false ∧ isUpgraded el (run w evs) = false.
Proof.
  induction evs as [|ev evs IH]; intros w Hv Hev Hu; simpl; [done|].
  destruct (step_gated w ev el) as [Hv1 Hu1]; [done| |done|].
  - intros entries ->. apply Hev. apply elem_of_cons. by left.
  - apply IH; [done| |done].
    intros entries Hin. apply Hev. apply elem_of_cons. by right.
Qed.

(** C5. Upgrades are gated by visibility and guarded. [tryUpgradeImage]
    changes nothing unless, when it runs, the orchestrator is stable SLOW,
    the image is registered and the image is not upgraded yet. An image whose
    tracked visibility is [false] is not upgraded by any event that does not
    itself report it visible, whatever the stability state; and through any
    run of events none of which reports it visible it stays not upgraded. *)
Theorem visibility_gates_upgrades w img :
  (isSlowStable w = false ∨ img ∉ registeredImages w ∨ isUpgraded img w = true →
     tryUpgradeImage img w = w) ∧
  (isVisible img w = false → isUpgraded img w = false →
     isUpgraded img (attemptUpgradesForVisibleImages w) = false ∧
     (∀ ev, (∀ entries, ev = Intersections entries → (img, true) ∉ entries) →
        isUpgraded img (step w ev) = false) ∧
     (∀ evs, (∀ entries, Intersections entries ∈ evs → (img, true) ∉ entries) →
        isUpgraded img (run w evs) = false)).
Proof.
  split; [apply tryUpgradeImage_guard|].
  intros Hv Hu. split_and!.
  - unfold isUpgraded, Loader.isUpgraded in *.
    unfold attemptUpgradesForVisibleImages. rewrite attempt_fold_lookup.
    by rewrite Hv, andb_false_r.
  - intros ev Hev. by apply step_gated.
  - intros evs Hev. by apply run_gated.
Qed.


Lemma visibility_gates_upgrades_witness :
  isSlowStable demoHidden = true ∧
  tryUpgradeImage 7 demoHidden = demoHidden ∧
  isUpgraded 8
    (run demoHidden [Scroll 20%float 101%float;
                     Intersections [(7, false); (8, false)];
                     Intersections [(7, true)]]) = false.
Proof.
  split; [reflexivity|].
  destruct (visibility_gates_upgrades demoHidden 7) as [Hguard _].
  destruct (visibility_gates_upgrades demoHidden 8) as [_ Hgate].
  split.
  - apply Hguard. right. right. reflexivity.
  - destruct (Hgate eq_refl eq_refl) as (_ & _ & Hrun). apply Hrun.
    intros entries Hin.
    repeat (apply elem_of_cons in Hin as [Heq|Hin]; [try discriminate Heq|]).
    + injection Heq as ->. apply (bool_decide_unpack _). by vm_compute.
    + injection Heq as ->. apply (bool_decide_unpack _). by vm_compute.
    + by apply elem_of_nil in Hin.
Defined.

(** *** Teardown *)

Lemma intersectionEvent_no_targets entries w :
  Observer.targets (visibility w) = [] → intersectionEvent entries w = w.
Proof.
  intros H. unfold intersectionEvent. rewrite H.
  assert (filter (λ e : nat * bool, e.1 ∈ ([] : list nat)) entries = []) as ->;
    [|done].
  induction entries as [|e entries IH]; [done|].
  rewrite filter_cons_False; [done|]. apply not_elem_of_nil.
Qed.

Lemma scrollEvent_not_listening now y w :
  scrollListening (window w) = false → scrollEvent now y w = w.
Proof. unfold scrollEvent. by intros ->. Qed.

(** What [destroy] leaves. *)
Lemma destroy_fields w :
  let w' := destroy w in
  slowTimer w' = None ∧
  isSlowStable w' = isSlowStable w ∧
  (∀ id, slowTimer w = Some id → pending id (window w') = false) ∧
  (invariant w → timers (window w') = []) ∧
  scrollListening (window w') = false ∧
  visibility w' = Observer.disconnect (visibility w) ∧
  registeredImages w' = [] ∧
  loader w' = ∅ ∧
  dom w' = dom w.
Proof.
  unfold destroy. simpl.
  destruct (slowTimer w) as [id|] eqn:Et; simpl; rewrite ?Et;
    split_and!; try done.
  - intros id' [= <-]. apply pending_clearTimeout.
  - intros [H1 _ _ _ _]. rewrite H1, Et. apply clear_only_timer.
  - intros [H1 _ _ _ _]. by rewrite H1, Et.
Qed.

(** The stable flag survives [destroy]: the world [demoStable] is reachable
    and stable SLOW, and after [destroy] the flag is still [true], not
    [false]. *)
Lemma destroy_keeps_stable_flag :
  reachable demoStable ∧
  isSlowStable demoStable = true ∧
  isSlowStable (destroy demoStable) ≠ false.
Proof. split; [apply reachable_demoStable|]. by vm_compute. Qed.

(** C7, amended. [destroy] clears the timer handle and leaves [isSlowStable]
    as it was. When it returns the timeout whose handle was held is no longer
    active (in a reachable world no timeout is active and no timer event does
    anything), the scroll listener is detached and scroll events do nothing,
    the observer has no targets and no stored flags and intersection events do
    nothing, the set of registered images is empty and the loader tracks
    nothing. The [src] already applied to the elements is kept. *)
Theorem destroy_tears_down w :
  slowTimer (destroy w) = None ∧
  isSlowStable (destroy w) = isSlowStable w ∧
  (∀ id, slowTimer w = Some id → pending id (window (destroy w)) = false) ∧
  (reachable w →
     timers (window (destroy w)) = [] ∧
     ∀ id, step (destroy w) (TimerFired id) = destroy w) ∧
  scrollListening (window (destroy w)) = false ∧
  (∀ now y, step (destroy w) (Scroll now y) = destroy w) ∧
  Observer.targets (visibility (destroy w)) = [] ∧
  Observer.visibilityMap (visibility (destroy w)) = ∅ ∧
  (∀ entries, step (destroy w) (Intersections entries) = destroy w) ∧
  registeredImages (destroy w) = [] ∧
  loader (destroy w) = ∅ ∧
  (∀ img, isUpgraded img (destroy w) = false) ∧
  dom (destroy w) = dom w.
Proof.
  destruct (destroy_fields w)
    as (H1 & H2 & H3 & H4 & H5 & H6 & H7 & H8 & H9).
  split_and!; try done.
  - intros Hr. assert (timers (window (destroy w)) = []) as Ht
      by (by apply H4, reachable_invariant).
    split; [done|]. intros id. by apply timerEvent_no_timers.
  - intros now y. by apply scrollEvent_not_listening.
  - by rewrite H6.
  - by rewrite H6.
  - intros entries. apply intersectionEvent_no_targets. by rewrite H6.
  - intros img. unfold isUpgraded, Loader.isUpgraded. by rewrite H8.
Qed.

Lemma destroy_tears_down_witness :
  slowTimer demoStabilizing = Some 1 ∧
  pending 1 (window (destroy demoStabilizing)) = false ∧
  timers (window (destroy demoStabilizing)) = [] ∧
  step (destroy demoStabilizing) (TimerFired 1) = destroy demoStabilizing.
Proof.
  destruct (destroy_tears_down demoStabilizing)
    as (_ & _ & Hp & Hr & _).
  destruct (Hr reachable_demoStabilizing) as [Ht Hf].
  split; [reflexivity|]. split; [apply Hp; reflexivity|].
  split; [exact Ht | exact (Hf 1)].
Defined.


(** *** Configuration *)

Lemma handleSpeedChange_keeps w :
  config (handleSpeedChange w) = config w ∧
  velocityController (handleSpeedChange w) = velocityController w ∧
  currentSpeed (handleSpeedChange w) = currentSpeed w ∧
  currentVelocity (handleSpeedChange w) = currentVelocity w.
Proof. unfold handleSpeedChange. by repeat case_match. Qed.

(** No event changes the configuration or the threshold held by the velocity
    tracker. *)
Lemma step_keeps_config w ev :
  config (step w ev) = config w ∧
  Velocity.slowVelocityThreshold (velocityController (step w ev))
    = Velocity.slowVelocityThreshold (velocityController w).
Proof.
  destruct ev as [now y|id|entries|x options|]; simpl.
  - unfold scrollEvent. case_match; [|done]. unfold velocityListener.
    destruct (handleSpeedChange_keeps
      (setCurrent (Velocity.handleScroll now y (velocityController w)).2
         (setVelocityController
            (Velocity.handleScroll now y (velocityController w)).1 w)))
      as (-> & -> & _). done.
  - unfold timerEvent. case_match; [|done]. unfold slowTimerCallback. simpl.
    destruct (currentSpeed w); [done|].
    unfold attemptUpgradesForVisibleImages.
    set (w1 := setIsSlowStable true _).
    by destruct (attempt_fold_frame (registeredImages w1) w1) as [s ->].
  - unfold intersectionEvent, intersectionCallback.
    generalize (filter (λ e : nat * bool, e.1 ∈ Observer.targets (visibility w))
                  entries).
    intros l. revert w. induction l as [|e l IH]; intros w; simpl; [done|].
    destruct (IH (intersectionEntry w e)) as [-> ->].
    unfold intersectionEntry, visibilityListener. simpl.
    repeat case_match; try done.
    match goal with |- context [tryUpgradeImage ?x ?w1] =>
      by destruct (tryUpgradeImage_frame x w1) as [s ->] end.
  - rewrite registerImage_no_upgrade.
    by destruct (registerAndObserve_fields x options w)
      as (-> & _ & _ & _ & _ & -> & _).
  - unfold destroy. simpl. by destruct (slowTimer w).
Qed.

Lemma run_keeps_config evs : ∀ w,
  config (run w evs) = config w ∧
  Velocity.slowVelocityThreshold (velocityController (run w evs))
    = Velocity.slowVelocityThreshold (velocityController w).
Proof.
  induction evs as [|ev evs IH]; intros w; simpl; [done|].
  destruct (IH (step w ev)) as [-> ->]. apply step_keeps_config.
Qed.

(** A configuration with a negative velocity threshold is not rejected:
    [initResourceLoader] returns a core and throws nothing. *)
Lemma negative_threshold_accepted :
  (slowVelocityThreshold negativeConfig <? 0)%float = true ∧
  ∀ message,
    initResourceLoader negativeConfig emptyDom 0%float 0%float ≠ Thrown message.
Proof. split; [reflexivity|]. intros message. discriminate. Qed.

(** C6, amended. Initialisation validates nothing: for every configuration
    [initResourceLoader] (which is [createCore]) returns a core and never
    throws. The velocity threshold, negative or not, is kept as given and is
    the threshold the velocity tracker classifies with from then on. A
    negative [slowDurationMs] is accepted too: it is handed unchanged to
    [setTimeout] for the first debounce timeout, and a timeout below zero
    runs with a delay of zero. *)
Theorem configuration_not_validated config d scrollY now :
  ∃ w,
    initResourceLoader config d scrollY now = Returned w ∧
    createCore config d scrollY now = Returned w ∧
    Core.config w = config ∧
    (∀ evs,
       Core.config (run w evs) = config ∧
       Velocity.slowVelocityThreshold (velocityController (run w evs))
         = slowVelocityThreshold config) ∧
    slowTimer w = Some 1 ∧
    timers (window w) = [(1, slowDurationMs config)] ∧
    ((slowDurationMs config <? 0)%float = true →
       effectiveDelay (slowDurationMs config) = 0%float).
Proof.
  exists (coreAtStart config d scrollY now). split_and!; try done.
  - intros evs. by destruct (run_keeps_config evs
                               (coreAtStart config d scrollY now)) as [-> ->].
  - intros H. unfold effectiveDelay. by rewrite H.
Qed.

Lemma configuration_not_validated_witness :
  ∃ w,
    initResourceLoader negativeConfig emptyDom 0%float 0%float = Returned w ∧
    Velocity.slowVelocityThreshold (velocityController w) = (-1)%float ∧
    timers (window w) = [(1, (-5)%float)] ∧
    effectiveDelay (slowDurationMs negativeConfig) = 0%float.
Proof.
  destruct (configuration_not_validated negativeConfig emptyDom 0%float 0%float)
    as (w & H1 & _ & _ & H2 & _ & H3 & H4).
  exists w. split; [exact H1|].
  split; [exact (proj2 (H2 []))|].
  split; [exact H3|]. apply H4. reflexivity.
Defined.

(** *** The velocity tracker *)

Lemma zero_elapsed_not_positive (dt : float) :
  (dt =? 0)%float = true → (0 <? dt)%float = false.
Proof.
  rewrite FloatAxioms.eqb_spec, ltb_spec.
  change (Prim2SF 0) with (S754_zero false).
  destruct (Prim2SF dt) as [s|s| |s m e]; try destruct s; simpl; done.
Qed.

(** A sample with zero elapsed time is not always SLOW: with the threshold
    -1, which the tracker accepts, the sample taken at the time of the last
    one has velocity 0 and is classified FAST. *)
Lemma zero_elapsed_sample_can_be_fast :
  (10 - Velocity.lastTime
          (Velocity.mkState (-1)%float 0%float 10%float SLOW) =? 0)%float = true ∧
  Velocity.velocity
    (Velocity.handleScroll 10%float 100%float
       (Velocity.mkState (-1)%float 0%float 10%float SLOW)).2 = 0%float ∧
  Velocity.speed
    (Velocity.handleScroll 10%float 100%float
       (Velocity.mkState (-1)%float 0%float 10%float SLOW)).2 = FAST ∧
  Velocity.speed
    (Velocity.handleScroll 10%float 100%float
       (Velocity.mkState (-1)%float 0%float 10%float SLOW)).2 ≠ SLOW.
Proof. split_and!; [reflexivity..|discriminate]. Qed.

(** C8, amended. The velocity tracker. On a scroll sample with a positive
    elapsed time the velocity is the absolute position change divided by the
    elapsed time; with a zero elapsed time the velocity is 0. Every sample,
    the zero-elapsed one included, is SLOW exactly when its velocity is at
    most the threshold and FAST otherwise, so a zero-elapsed sample is SLOW
    exactly when the threshold is not negative. The position, the time and
    the speed are remembered for the next sample, and an attached listener
    passes every sample on to the core. At start the tracker keeps the
    threshold, the scroll position and the time it is given, attaches the
    scroll listener and hands the listener the state with velocity 0 and
    speed SLOW, whatever the threshold; this is the state the core holds when
    [createCore] returns, and the first real sample is measured from the
    position and the time of the start. *)
Theorem velocity_classifier_contract (st : Velocity.State) now currentY :
  ((0 <? now - Velocity.lastTime st)%float = true →
     Velocity.velocity (Velocity.handleScroll now currentY st).2
       = (abs (currentY - Velocity.lastY st) / (now - Velocity.lastTime st))%float) ∧
  ((now - Velocity.lastTime st =? 0)%float = true →
     Velocity.velocity (Velocity.handleScroll now currentY st).2 = 0%float ∧
     (Velocity.speed (Velocity.handleScroll now currentY st).2 = SLOW ↔
        (0 <=? Velocity.slowVelocityThreshold st)%float = true)) ∧
  (Velocity.speed (Velocity.handleScroll now currentY st).2 = SLOW ↔
     (Velocity.velocity (Velocity.handleScroll now currentY st).2
        <=? Velocity.slowVelocityThreshold st)%float = true) ∧
  (Velocity.speed (Velocity.handleScroll now currentY st).2 = FAST ↔
     (Velocity.velocity (Velocity.handleScroll now currentY st).2
        <=? Velocity.slowVelocityThreshold st)%float = false) ∧
  (Velocity.handleScroll now currentY st).1
    = Velocity.mkState (Velocity.slowVelocityThreshold st) currentY now
        (Velocity.speed (Velocity.handleScroll now currentY st).2) ∧
  (∀ w, velocityController w = st → scrollListening (window w) = true →
     currentVelocity (step w (Scroll now currentY))
       = Velocity.velocity (Velocity.handleScroll now currentY st).2 ∧
     currentSpeed (step w (Scroll now currentY))
       = Velocity.speed (Velocity.handleScroll now currentY st).2 ∧
     velocityController (step w (Scroll now currentY))
       = (Velocity.handleScroll now currentY st).1) ∧
  (∀ threshold scrollY start win,
     Velocity.initScrollVelocity threshold scrollY start win
       = (Velocity.mkState threshold scrollY start SLOW,
          addScrollListener win,
          Velocity.mkVelocityState 0%float SLOW)) ∧
  (∀ threshold scrollY start win,
     (0 <? now - start)%float = true →
     Velocity.velocity
       (Velocity.handleScroll now currentY
          (Velocity.initScrollVelocity threshold scrollY start win).1.1).2
       = (abs (currentY - scrollY) / (now - start))%float ∧
     (Velocity.speed
        (Velocity.handleScroll now currentY
           (Velocity.initScrollVelocity threshold scrollY start win).1.1).2
        = SLOW ↔
      (abs (currentY - scrollY) / (now - start) <=? threshold)%float = true)) ∧
  (∀ config d scrollY start,
     velocityController (coreAtStart config d scrollY start)
       = Velocity.mkState (slowVelocityThreshold config) scrollY start SLOW ∧
     scrollListening (window (coreAtStart config d scrollY start)) = true ∧
     currentVelocity (coreAtStart config d scrollY start) = 0%float ∧
     currentSpeed (coreAtStart config d scrollY start) = SLOW).
Proof.
  unfold Velocity.handleScroll. simpl. split_and!.
  - by intros ->.
  - intros H. rewrite (zero_elapsed_not_positive _ H). split; [done|].
    by destruct (0 <=? Velocity.slowVelocityThreshold st)%float.
  - case_match; split; done.
  - case_match; split; done.
  - done.
  - intros w <- Hl. unfold scrollEvent. rewrite Hl. unfold velocityListener.
    match goal with |- context [handleSpeedChange ?x] =>
      destruct (handleSpeedChange_keeps x) as (_ & -> & -> & ->) end.
    done.
  - done.
  - intros threshold scrollY start win ->. split; [done|].
    by destruct (abs (currentY - scrollY) / (now - start) <=? threshold)%float.
  - done.
Qed.

Lemma velocity_classifier_contract_witness :
  (* 100 px in 10 ms: velocity 10, FAST for the threshold 0.4 *)
  Velocity.velocity
    (Velocity.handleScroll 10%float 100%float
       (Velocity.mkState 0.4%float 0%float 0%float SLOW)).2 = 10%float ∧
  Velocity.speed
    (Velocity.handleScroll 10%float 100%float
       (Velocity.mkState 0.4%float 0%float 0%float SLOW)).2 = FAST ∧
  (* 100 px in no time: velocity 0, SLOW for the threshold 0.4 *)
  Velocity.velocity
    (Velocity.handleScroll 10%float 100%float
       (Velocity.mkState 0.4%float 0%float 10%float SLOW)).2 = 0%float ∧
  Velocity.speed
    (Velocity.handleScroll 10%float 100%float
       (Velocity.mkState 0.4%float 0%float 10%float SLOW)).2 = SLOW ∧
  (* a sample of velocity 0.1 is SLOW *)
  Velocity.speed
    (Velocity.handleScroll 10%float 1%float
       (Velocity.mkState 0.4%float 0%float 0%float SLOW)).2 = SLOW ∧
  currentSpeed (step demoStabilizing (Scroll 10%float 100%float)) = FAST ∧
  (* the first sample after a start at position 50 and time 5 *)
  Velocity.velocity
    (Velocity.handleScroll 10%float 100%float
       (Velocity.initScrollVelocity 0.4%float 50%float 5%float newWindow).1.1).2
    = 10%float.
Proof.
  destruct (velocity_classifier_contract
              (Velocity.mkState 0.4%float 0%float 0%float SLOW) 10%float 100%float)
    as (H1 & _ & _ & H2 & _ & H3 & _ & H8 & _).
  destruct (velocity_classifier_contract
              (Velocity.mkState 0.4%float 0%float 10%float SLOW) 10%float 100%float)
    as (_ & H4 & _).
  destruct (velocity_classifier_contract
              (Velocity.mkState 0.4%float 0%float 0%float SLOW) 10%float 1%float)
    as (_ & _ & H5 & _).
  split; [rewrite H1; reflexivity|].
  split; [apply H2; reflexivity|].
  destruct (H4 eq_refl) as [H6 H7].
  split; [exact H6|]. split; [apply H7; reflexivity|].
  split; [apply H5; reflexivity|].
  split; [destruct (H3 demoStabilizing eq_refl eq_refl) as (_ & -> & _);
          reflexivity|].
  destruct (H8 0.4%float 50%float 5%float newWindow eq_refl) as [-> _].
  reflexivity.
Defined.


(** *** Once upgraded, an image stays as it is *)

Lemma tryUpgradeImage_keeps_upgraded img w x v :
  invariant w → isUpgraded x w = true → srcOf (dom w) !! x = v →
  isUpgraded x (tryUpgradeImage img w) = true ∧
  srcOf (dom (tryUpgradeImage img w)) !! x = v.
Proof.
  intros Hinv Hu Hsrc. unfold tryUpgradeImage.
  destruct (negb (isSlowStable w)); [done|].
  destruct (negb (bool_decide (img ∈ registeredImages w))); [done|].
  destruct (Loader.isUpgraded img (loader w)) eqn:Hi; [done|].
  assert (x ≠ img) as Hne.
  { intros ->. unfold isUpgraded in Hu. congruence. }
  unfold Loader.upgradeImage, Loader.isUpgraded in *. simpl.
  destruct (loader w !! img) as [t|] eqn:Et; [|done].
  rewrite Hi. simpl. unfold isUpgraded, Loader.isUpgraded. simpl.
  rewrite (inv_keys w Hinv img t Et).
  by rewrite !lookup_insert_ne.
Qed.

Lemma attempt_keeps_upgraded w x v :
  invariant w → isUpgraded x w = true → srcOf (dom w) !! x = v →
  isUpgraded x (attemptUpgradesForVisibleImages w) = true ∧
  srcOf (dom (attemptUpgradesForVisibleImages w)) !! x = v.
Proof.
  unfold attemptUpgradesForVisibleImages.
  generalize (registeredImages w). intros l. revert w.
  induction l as [|a l IH]; intros w Hinv Hu Hsrc; simpl; [done|].
  destruct (negb (isVisible a w)); [by apply IH|].
  destruct (tryUpgradeImage_keeps_upgraded a w x v) as [Hu1 Hsrc1]; [done..|].
  apply IH; [by apply invariant_tryUpgradeImage|done..].
Qed.

Lemma intersectionEntry_keeps_upgraded w entry x v :
  invariant w → isUpgraded x w = true → srcOf (dom w) !! x = v →
  isUpgraded x (intersectionEntry w entry) = true ∧
  srcOf (dom (intersectionEntry w entry)) !! x = v.
Proof.
  intros Hinv Hu Hsrc. unfold intersectionEntry, visibilityListener.
  repeat case_match; try done.
  apply tryUpgradeImage_keeps_upgraded; [|done..].
  by apply invariant_setVisibility.
Qed.

Lemma intersectionCallback_keeps_upgraded entries x v : ∀ w,
  invariant w → isUpgraded x w = true → srcOf (dom w) !! x = v →
  isUpgraded x (intersectionCallback entries w) = true ∧
  srcOf (dom (intersectionCallback entries w)) !! x = v.
Proof.
  unfold intersectionCallback.
  induction entries as [|e entries IH]; intros w Hinv Hu Hsrc; simpl; [done|].
  destruct (intersectionEntry_keeps_upgraded w e x v) as [Hu1 Hsrc1]; [done..|].
  apply IH; [by apply invariant_intersectionEntry|done..].
Qed.

(** No event other than registering the image again or [destroy] takes the
    upgrade back or touches the [src] of an upgraded image. *)
Lemma step_keeps_upgraded w ev x v :
  invariant w → isUpgraded x w = true → srcOf (dom w) !! x = v →
  (∀ options, ev ≠ RegisterImage x options) → ev ≠ Destroy →
  isUpgraded x (step w ev) = true ∧ srcOf (dom (step w ev)) !! x = v.
Proof.
  intros Hinv Hu Hsrc Hreg Hdes.
  destruct ev as [now y|id|entries|x' options|]; simpl; [..|done].
  - unfold scrollEvent. case_match; [|done].
    unfold velocityListener, handleSpeedChange. simpl.
    by repeat case_match.
  - unfold timerEvent. case_match; [|done].
    unfold slowTimerCallback. simpl.
    destruct (currentSpeed w) eqn:Hs; [done|].
    apply attempt_keeps_upgraded; [|done..].
    assert (invariant (timerEvent id w)) as Hinv'
      by (by apply invariant_timerEvent).
    unfold timerEvent, slowTimerCallback in Hinv'. simpl in Hinv'.
    destruct (pending id (window w)); [|done]. rewrite Hs in Hinv'.
    destruct Hinv' as [H1 H2 H3 _ _].
    set (w1 := setIsSlowStable true _) in *.
    destruct (attempt_fold_frame (registeredImages w1) w1) as [s Hfr].
    unfold attemptUpgradesForVisibleImages in *. rewrite Hfr in H1, H2, H3.
    split; try done; [apply (inv_keys w Hinv) | apply (inv_tracked w Hinv)].
  - by apply intersectionCallback_keeps_upgraded.
  - assert (x' ≠ x) as Hne by (intros ->; by apply (Hreg options)).
    rewrite registerImage_no_upgrade.
    destruct (registerAndObserve_fields x' options w)
      as (_ & _ & _ & Hl & _ & _ & _ & _ & _ & _ & Hsrc').
    unfold isUpgraded, Loader.isUpgraded in *. rewrite Hl, Hsrc'.
    by rewrite !lookup_insert_ne.
Qed.

Lemma run_keeps_upgraded evs x v : ∀ w,
  invariant w → isUpgraded x w = true → srcOf (dom w) !! x = v →
  (∀ options, RegisterImage x options ∉ evs) → Destroy ∉ evs →
  isUpgraded x (run w evs) = true ∧ srcOf (dom (run w evs)) !! x = v.
Proof.
  induction evs as [|ev evs IH]; intros w Hinv Hu Hsrc Hreg Hdes; simpl;
    [done|].
  destruct (step_keeps_upgraded w ev x v) as [Hu1 Hsrc1]; [done..| | |].
  - intros options ->. apply (Hreg options), elem_of_cons. by left.
  - intros ->. apply Hdes, elem_of_cons. by left.
  - apply IH; [by apply invariant_step|done..| |].
    + intros options Hin. apply (Hreg options), elem_of_cons. by right.
    + intros Hin. apply Hdes, elem_of_cons. by right.
Qed.


(** C1. [upgradeImage] succeeds at most once per registration and the
    upgraded flag is monotone. For an element that the loader does not track,
    or that is already upgraded, the call returns [false] and leaves the DOM
    and the tracked entries as they were. Otherwise it returns [true], marks
    the entry upgraded and sets the [src] of the tracked element to its high
    source (for an entry made by [registerImage] that is the registered
    element itself). Once [isUpgraded] holds it keeps holding through any run
    of further [upgradeImage] calls, each call on that element in the run
    returns [false], and in any run from any state at most one call on a given
    element returns [true]. In the running system the same holds through any
    run of events that neither registers the element again nor destroys the
    core: the image stays upgraded, its [src] is not touched and
    [upgradeImage] on it returns [false]. *)
Theorem upgradeImage_at_most_once el (s : Dom * Loader.Images) w :
  (s.2 !! el = None ∨ Loader.isUpgraded el s.2 = true →
     Loader.upgradeImage el s = (false, s)) ∧
  (∀ t, s.2 !! el = Some t → Loader.upgraded t = false →
     (Loader.upgradeImage el s).1 = true ∧
     (Loader.upgradeImage el s).2.2 = <[el := Loader.markUpgraded t]> s.2 ∧
     Loader.isUpgraded el (Loader.upgradeImage el s).2.2 = true ∧
     srcOf (Loader.upgradeImage el s).2.1 !! Loader.element t
       = Some (Loader.t_highSrc t)) ∧
  (∀ cfg, (Loader.upgradeImage el (Loader.registerImage el cfg s)).1 = true ∧
     srcOf (Loader.upgradeImage el (Loader.registerImage el cfg s)).2.1 !! el
       = Some (Loader.highSrc cfg)) ∧
  (Loader.isUpgraded el s.2 = true → ∀ els,
     Loader.isUpgraded el (Loader.upgradeAll els s).2.2 = true ∧
     Loader.upgradeImage el (Loader.upgradeAll els s).2
       = (false, (Loader.upgradeAll els s).2) ∧
     (∀ i, els !! i = Some el →
        (Loader.upgradeAll els s).1 !! i = Some false)) ∧
  (∀ els,
     Loader.trueReturns el (zip els (Loader.upgradeAll els s).1) ≤ 1) ∧
  (reachable w → isUpgraded el w = true → ∀ evs,
     (∀ options, RegisterImage el options ∉ evs) → Destroy ∉ evs →
     isUpgraded el (run w evs) = true ∧
     srcOf (dom (run w evs)) !! el = srcOf (dom w) !! el ∧
     Loader.upgradeImage el (dom (run w evs), loader (run w evs))
       = (false, (dom (run w evs), loader (run w evs)))).
Proof.
  destruct (loader_upgradeImage_once el s) as (H1 & H2 & H3 & H4 & H5).
  split_and!; try done.
  intros Hr Hu evs Hreg Hdes.
  destruct (run_keeps_upgraded evs el (srcOf (dom w) !! el) w)
    as [Hu' Hsrc']; [by apply reachable_invariant|done..|].
  split_and!; [done..|].
  apply upgradeImage_refused. by left.
Qed.

Lemma upgradeImage_at_most_once_witness :
  (* image 8 is unknown: refused, nothing changes *)
  Loader.upgradeImage 8 (Loader.registerImage 7 demoOptions (emptyDom, ∅))
    = (false, Loader.registerImage 7 demoOptions (emptyDom, ∅)) ∧
  (* image 7 is tracked and not upgraded: performed *)
  (Loader.upgradeImage 7
     (Loader.registerImage 7 demoOptions (emptyDom, ∅))).1 = true ∧
  (* and from then on refused, through further calls *)
  (Loader.upgradeAll [7; 8; 7]
     (Loader.upgradeImage 7
        (Loader.registerImage 7 demoOptions (emptyDom, ∅))).2).1
    !! 2 = Some false ∧
  (* in the running system image 7 stays upgraded while the page scrolls,
     leaves the viewport and comes back *)
  isUpgraded 7
    (run demoStable [Scroll 10%float 100%float; Intersections [(7, false)];
                     Scroll 500%float 101%float; TimerFired 2;
                     Intersections [(7, true)]]) = true.
Proof.
  destruct (upgradeImage_at_most_once 8
              (Loader.registerImage 7 demoOptions (emptyDom, ∅)) demoStable)
    as (Hrefuse & _).
  destruct (upgradeImage_at_most_once 7
              (Loader.registerImage 7 demoOptions (emptyDom, ∅)) demoStable)
    as (_ & Hperform & _ & _ & _ & Hrun).
  destruct (upgradeImage_at_most_once 7
              (Loader.upgradeImage 7
                 (Loader.registerImage 7 demoOptions (emptyDom, ∅))).2
              demoStable)
    as (_ & _ & _ & Hmono & _).
  split; [apply Hrefuse; left; reflexivity|].
  destruct (Hperform (Loader.mkTracked 7 "low.jpg" "high.jpg" false)
              eq_refl eq_refl) as (Htrue & _).
  split; [exact Htrue|].
  destruct (Hmono eq_refl [7; 8; 7]) as (_ & _ & Hfalse).
  split; [apply Hfalse; reflexivity|].
  apply (Hrun reachable_demoStable eq_refl).
  - intros options Hin.
    repeat (apply elem_of_cons in Hin as [Heq|Hin]; [discriminate Heq|]).
    by apply elem_of_nil in Hin.
  - intros Hin.
    repeat (apply elem_of_cons in Hin as [Heq|Hin]; [discriminate Heq|]).
    by apply elem_of_nil in Hin.
Defined.

End CoreFacts.

(** ** Further properties of the loader, the observer and the orchestrator *)

Section MoreFacts.
Import Core.
Implicit Types (w : World) (img el : Element) (ev : Event).

(** *** The coherence invariant *)

(** [tryUpgradeImage] either changes nothing or performs the upgrade of a
    registered, tracked, not yet upgraded image in a stable world. *)
Lemma tryUpgradeImage_cases img w :
  tryUpgradeImage img w = w ∨
  (isSlowStable w = true ∧ img ∈ registeredImages w ∧
   ∃ t, loader w !! img = Some t ∧ Loader.upgraded t = false ∧
     tryUpgradeImage img w =
       setDomLoader (setSrc (Loader.element t) (Loader.t_highSrc t) (dom w),
                     <[img := Loader.markUpgraded t]> (loader w)) w).
Proof.
  unfold tryUpgradeImage.
  destruct (isSlowStable w) eqn:Hst; simpl; [|by left].
  case_bool_decide as Hreg; simpl; [|by left].
  unfold Loader.isUpgraded, Loader.upgradeImage. simpl.
  destruct (loader w !! img) as [t|] eqn:Et.
  - destruct (Loader.upgraded t) eqn:Hu; [by left|].
    right. split_and!; [done..|]. by exists t.
  - left. apply setDomLoader_id.
Qed.

Lemma tryUpgradeImage_upgrades img w :
  isSlowStable w = true → img ∈ registeredImages w →
  is_Some (loader w !! img) → isUpgraded img (tryUpgradeImage img w) = true.
Proof.
  intros Hst Hreg [t Ht]. unfold isUpgraded, Loader.isUpgraded.
  rewrite tryUpgradeImage_lookup, Hst, Ht. simpl.
  by rewrite !bool_decide_eq_true_2.
Qed.

Lemma tryUpgradeImage_mono img w x :
  isUpgraded x w = true → isUpgraded x (tryUpgradeImage img w) = true.
Proof.
  unfold isUpgraded, Loader.isUpgraded. rewrite tryUpgradeImage_lookup.
  destruct (isSlowStable w && bool_decide (img ∈ registeredImages w)
            && bool_decide (x = img)); [|done].
  by destruct (loader w !! x).
Qed.

Lemma keyed_tryUpgradeImage img w : keyed w → keyed (tryUpgradeImage img w).
Proof.
  intros Hk.
  destruct (tryUpgradeImage_cases img w)
    as [->|(Hst & Hreg & t & Ht & Hu & ->)]; [done|].
  intros k t'. simpl. destruct (decide (k = img)) as [->|Hne].
  - rewrite lookup_insert_eq. intros [= <-]. simpl. by apply Hk.
  - rewrite lookup_insert_ne by done. apply Hk.
Qed.

Lemma coherent_tryUpgradeImage img w :
  keyed w → coherent w → coherent (tryUpgradeImage img w).
Proof.
  intros Hk [C1 C2 C3 C4 C5 C6].
  destruct (tryUpgradeImage_cases img w)
    as [->|(Hst & Hreg & t & Ht & Hu & ->)]; [done|].
  split; simpl; try done.
  - intros k t'. rewrite (Hk img t Ht).
    destruct (decide (k = img)) as [->|Hne].
    + rewrite !lookup_insert_eq. by intros [= <-].
    + rewrite !lookup_insert_ne by done. apply C1.
  - intros el. destruct (decide (el = img)) as [->|Hne]; [done|].
    rewrite lookup_insert_ne by done. apply C2.
Qed.

Lemma coherent_attempt_fold (l : list Element) : ∀ w,
  keyed w → coherent w →
  coherent (foldl (λ w img, if negb (isVisible img w) then w
                            else tryUpgradeImage img w) w l).
Proof.
  induction l as [|a l IH]; intros w Hk Hc; simpl; [done|].
  destruct (negb (isVisible a w)); [by apply IH|].
  apply IH; [by apply keyed_tryUpgradeImage|by apply coherent_tryUpgradeImage].
Qed.

Lemma timers_clearTimeout_fresh id win (n : nat) :
  (∀ id', id' ∈ (timers win).*1 → id' < n) →
  ∀ id', id' ∈ (timers (clearTimeout id win)).*1 → id' < n.
Proof.
  intros H id' (t & -> & Hin)%list_elem_of_fmap.
  apply list_elem_of_filter in Hin as [_ Hin].
  apply H, list_elem_of_fmap. by exists t.
Qed.

Lemma coherent_velocityListener state w :
  coherent w → coherent (velocityListener state w).
Proof.
  intros [C1 C2 C3 C4 C5 C6].
  unfold velocityListener, handleSpeedChange. simpl.
  destruct (Velocity.speed state); simpl.
  - destruct (slowTimer w) as [id|]; split; simpl; try done.
    by apply timers_clearTimeout_fresh.
  - destruct (isSlowStable w); [done|].
    destruct (slowTimer w) as [id|]; split; simpl; try done.
    intros id'. rewrite fmap_app. simpl.
    intros [Hin| ->%list_elem_of_singleton]%elem_of_app; [|lia].
    apply C6 in Hin. lia.
Qed.

Lemma coherent_timerEvent id w :
  keyed w → coherent w → coherent (timerEvent id w).
Proof.
  intros Hk Hc. unfold timerEvent. destruct (pending id (window w)); [|done].
  assert (coherent (setSlowTimer None (setWindow (expire id (window w)) w)))
    as Hc1.
  { destruct Hc as [C1 C2 C3 C4 C5 C6]. split; simpl; try done.
    by apply timers_clearTimeout_fresh. }
  unfold slowTimerCallback. simpl. destruct (currentSpeed w); [done|].
  unfold attemptUpgradesForVisibleImages.
  apply coherent_attempt_fold; [done|by destruct Hc1].
Qed.

(** What one observer entry leaves in the variables other than the loader
    and the DOM. *)
Lemma intersectionEntry_fields w entry :
  let w' := intersectionEntry w entry in
  config w' = config w ∧ window w' = window w ∧
  registeredImages w' = registeredImages w ∧
  Observer.targets (visibility w') = Observer.targets (visibility w) ∧
  currentSpeed w' = currentSpeed w ∧ isSlowStable w' = isSlowStable w ∧
  slowTimer w' = slowTimer w ∧
  (∀ el, isVisible el w'
           = if bool_decide (el = entry.1) then entry.2 else isVisible el w).
Proof.
  assert (∀ el,
    Observer.isVisible el
      (Observer.recordEntry entry (visibility w)).1
    = if bool_decide (el = entry.1) then entry.2 else isVisible el w) as Hvis.
  { intros el. unfold isVisible, Observer.isVisible, Observer.recordEntry.
    destruct entry as [x b]. simpl.
    destruct (decide (el = x)) as [->|Hne].
    - rewrite lookup_insert_eq, (bool_decide_eq_true_2 (x = x)) by done.
      destruct b; [by apply bool_decide_eq_true_2|].
      by apply bool_decide_eq_false_2.
    - by rewrite lookup_insert_ne, (bool_decide_eq_false_2 (el = x)). }
  unfold intersectionEntry, visibilityListener. simpl.
  repeat case_match; simpl; split_and!; try done;
    match goal with |- context [tryUpgradeImage ?x ?w1] =>
      destruct (tryUpgradeImage_frame x w1) as [s ->] end; done.
Qed.

Lemma coherent_intersectionEntry w entry :
  keyed w → coherent w → entry.1 ∈ Observer.targets (visibility w) →
  coherent (intersectionEntry w entry).
Proof.
  intros Hk Hc Hin.
  assert (coherent (setVisibility
            (Observer.recordEntry entry (visibility w)).1 w)) as Hc1.
  { destruct Hc as [C1 C2 C3 C4 C5 C6]. split; simpl; try done.
    intros el. unfold isVisible, Observer.isVisible. simpl.
    destruct (decide (entry.1 = el)) as [<-|Hne].
    - intros _. by rewrite <- C3.
    - rewrite lookup_insert_ne by done. apply C5. }
  unfold intersectionEntry, visibilityListener.
  repeat case_match; try done. by apply coherent_tryUpgradeImage.
Qed.

Lemma keyed_intersectionEntry w entry :
  keyed w → keyed (intersectionEntry w entry).
Proof.
  intros Hk. unfold intersectionEntry, visibilityListener.
  repeat case_match; try done. by apply keyed_tryUpgradeImage.
Qed.

Lemma loader_intersectionEntry_mono w entry x :
  isUpgraded x w = true → isUpgraded x (intersectionEntry w entry) = true.
Proof.
  intros Hu. unfold intersectionEntry, visibilityListener.
  repeat case_match; try done. by apply tryUpgradeImage_mono.
Qed.

Lemma settled_intersectionEntry w entry :
  invariant w → coherent w → settled w →
  entry.1 ∈ Observer.targets (visibility w) →
  settled (intersectionEntry w entry).
Proof.
  intros Hinv Hc Hs Hin.
  destruct (intersectionEntry_fields w entry)
    as (_ & _ & Hreg & _ & _ & Hst & _ & Hvis).
  intros Hst' el Hel Hv. rewrite Hst in Hst'. rewrite Hreg in Hel.
  rewrite Hvis in Hv. case_bool_decide as Heq.
  - subst el. unfold intersectionEntry, Observer.recordEntry. simpl.
    case_bool_decide as Hflip.
    + unfold visibilityListener. simpl. rewrite Hv, Hst'. simpl.
      apply tryUpgradeImage_upgrades; [done..|].
      by apply (inv_tracked w Hinv).
    + apply (Hs Hst'); [done|].
      unfold isVisible, Observer.isVisible. rewrite Hflip, Hv.
      by apply bool_decide_eq_true_2.
  - apply loader_intersectionEntry_mono. by apply Hs.
Qed.

Lemma intersectionCallback_all (P : World → Prop) entries : ∀ w,
  (∀ w e, P w → e.1 ∈ Observer.targets (visibility w) →
          P (intersectionEntry w e)) →
  P w → (∀ e, e ∈ entries → e.1 ∈ Observer.targets (visibility w)) →
  P (intersectionCallback entries w).
Proof.
  unfold intersectionCallback.
  induction entries as [|e entries IH]; intros w Hstep Hw Hall; simpl; [done|].
  apply IH; [done| |].
  - apply Hstep; [done|]. apply Hall, elem_of_cons. by left.
  - intros e' He'.
    destruct (intersectionEntry_fields w e) as (_ & _ & _ & -> & _).
    apply Hall, elem_of_cons. by right.
Qed.

Lemma invariant_keyed w : invariant w → keyed w.
Proof. intros Hinv k t. apply (inv_keys w Hinv). Qed.

Lemma settled_velocityListener state w :
  settled w → settled (velocityListener state w).
Proof.
  intros Hs. unfold settled, velocityListener, handleSpeedChange. simpl.
  destruct (Velocity.speed state).
  - by destruct (slowTimer w).
  - destruct (isSlowStable w) eqn:Hw; [by apply Hs|].
    by destruct (slowTimer w).
Qed.

(** The three facts together are kept by every event. *)
Lemma sound_step w ev :
  invariant w ∧ coherent w ∧ settled w →
  invariant (step w ev) ∧ coherent (step w ev) ∧ settled (step w ev).
Proof.
  intros (Hinv & Hc & Hs).
  split; [by apply invariant_step|].
  destruct ev as [now y|id|entries|x options|]; simpl.
  - unfold scrollEvent. destruct (scrollListening (window w)); [|done].
    generalize (Velocity.handleScroll now y (velocityController w)).
    intros r. split.
    + apply coherent_velocityListener. by destruct Hc.
    + by apply settled_velocityListener.
  - split; [by apply coherent_timerEvent; [apply invariant_keyed|]|].
    unfold timerEvent. destruct (pending id (window w)); [|done].
    unfold slowTimerCallback. simpl.
    destruct (currentSpeed w); [done|].
    set (w1 := setIsSlowStable true _).
    intros _ el Hel Hv.
    destruct (attempt_fold_frame (registeredImages w1) w1) as [s Hfr].
    unfold attemptUpgradesForVisibleImages in *.
    rewrite Hfr in Hel, Hv. simpl in Hel.
    unfold isUpgraded, Loader.isUpgraded. rewrite attempt_fold_lookup. simpl.
    rewrite bool_decide_eq_true_2 by done.
    change (isVisible el w1) with (isVisible el w).
    change (isVisible el (setDomLoader s w1)) with (isVisible el w) in Hv.
    rewrite Hv. simpl.
    by destruct (inv_tracked w Hinv el Hel) as [t ->].
  - unfold intersectionEvent.
    apply (intersectionCallback_all
             (λ w, invariant w ∧ coherent w ∧ settled w)).
    + intros w0 e (Hi & Hc0 & Hs0) He. split_and!.
      * by apply invariant_intersectionEntry.
      * by apply coherent_intersectionEntry; [apply invariant_keyed|..].
      * by apply settled_intersectionEntry.
    + done.
    + by intros e [He _]%list_elem_of_filter.
  - rewrite registerImage_no_upgrade.
    destruct (registerAndObserve_fields x options w)
      as (Hcf & Hw & Hr & Hl & Hv & Hvc & Hsp & Hcv & Hst & Ht & Hsrc).
    destruct Hc as [C1 C2 C3 C4 C5 C6].
    assert (∀ el, isVisible el (registerAndObserve x options w) = true →
                  el ≠ x ∧ isVisible el w = true) as Hvis.
    { intros el. unfold isVisible. rewrite Hv.
      unfold Observer.isVisible, Observer.observeImage. simpl.
      destruct (decide (x = el)) as [->|Hne].
      - by rewrite lookup_insert_eq.
      - by rewrite lookup_insert_ne. }
    split; [split|].
    + intros k t. rewrite Hl, Hsrc.
      destruct (decide (k = x)) as [->|Hne].
      * rewrite !lookup_insert_eq. by intros [= <-].
      * rewrite !lookup_insert_ne by done. apply C1.
    + intros el. rewrite Hl, Hr, elem_of_setAdd.
      destruct (decide (el = x)) as [->|Hne]; [by left|].
      rewrite lookup_insert_ne by done. right. by apply C2.
    + rewrite Hv, Hr. unfold Observer.observeImage, setAdd. simpl.
      by rewrite C3.
    + rewrite Hr. unfold setAdd. case_bool_decide as Hin; [done|].
      apply NoDup_app. split_and!; [done| |apply NoDup_singleton].
      intros y Hy ->%list_elem_of_singleton. done.
    + intros el [Hne Hel]%Hvis. rewrite Hr, elem_of_setAdd. right. by apply C5.
    + by rewrite Hw.
    + intros Hst' el Hel [Hne Hv']%Hvis.
      rewrite Hst in Hst'. rewrite Hr, elem_of_setAdd in Hel.
      destruct Hel as [->|Hel]; [done|].
      unfold isUpgraded, Loader.isUpgraded. rewrite Hl.
      rewrite lookup_insert_ne by done. by apply (Hs Hst').
  - destruct (destroy_fields w) as (D1 & D2 & D3 & D4 & D5 & D6 & D7 & D8 & D9).
    destruct Hc as [C1 C2 C3 C4 C5 C6]. split; [split|].
    + intros k t. by rewrite D8.
    + intros el. rewrite D8. by intros [t Ht].
    + by rewrite D6, D7.
    + rewrite D7. apply NoDup_nil_2.
    + intros el. unfold isVisible. rewrite D6. done.
    + unfold destroy. simpl. destruct (slowTimer w); simpl; [|done].
      by apply timers_clearTimeout_fresh.
    + intros _ el. rewrite D7. by intros Hel%elem_of_nil.
Qed.

Lemma sound_coreAtStart config d scrollY now :
  coherent (coreAtStart config d scrollY now) ∧
  settled (coreAtStart config d scrollY now).
Proof.
  split; [split; simpl; try done|done].
  - intros el [t Ht]. done.
  - apply NoDup_nil_2.
  - intros id ->%list_elem_of_singleton. lia.
Qed.

Lemma reachable_sound w :
  reachable w → invariant w ∧ coherent w ∧ settled w.
Proof.
  induction 1 as [config d scrollY now w Hc | w ev _ IH].
  - injection Hc as <-. split; [apply invariant_coreAtStart|].
    apply sound_coreAtStart.
  - by apply sound_step.
Qed.

(** *** What every reachable world satisfies *)

(** X1. In every reachable world in which the orchestrator is stable SLOW,
    each registered image that is marked visible is upgraded, and its [src]
    is the high source of its entry. *)
Theorem stable_visible_images_are_upgraded w el :
  reachable w → isSlowStable w = true →
  el ∈ registeredImages w → isVisible el w = true →
  isUpgraded el w = true ∧
  ∃ t, loader w !! el = Some t ∧ Loader.upgraded t = true ∧
       srcOf (dom w) !! el = Some (Loader.t_highSrc t).
Proof.
  intros Hr Hst Hel Hv.
  destruct (reachable_sound w Hr) as (Hinv & Hc & Hs).
  assert (isUpgraded el w = true) as Hu by (by apply Hs).
  split; [done|]. unfold isUpgraded, Loader.isUpgraded in Hu.
  destruct (loader w !! el) as [t|] eqn:Et; [|done].
  exists t. split_and!; [done..|].
  rewrite (coh_src w Hc el t Et). by rewrite Hu.
Qed.

Lemma stable_visible_images_are_upgraded_witness :
  isUpgraded 7 demoStable = true ∧
  ∃ t, loader demoStable !! 7 = Some t ∧ Loader.upgraded t = true ∧
       srcOf (dom demoStable) !! 7 = Some (Loader.t_highSrc t).
Proof.
  apply (stable_visible_images_are_upgraded demoStable 7).
  - exact reachable_demoStable.
  - reflexivity.
  - apply (bool_decide_unpack _). by vm_compute.
  - reflexivity.
Defined.

(** X2. In every reachable world the [src] of a tracked image agrees with
    its entry: the high source when the entry is marked upgraded, the low
    source otherwise; and the entry records the element it is stored under. *)
Theorem src_matches_upgraded_flag w el t :
  reachable w → loader w !! el = Some t →
  Loader.element t = el ∧
  srcOf (dom w) !! el
    = Some (if Loader.upgraded t then Loader.t_highSrc t
            else Loader.t_lowSrc t).
Proof.
  intros Hr Ht. destruct (reachable_sound w Hr) as (Hinv & Hc & _).
  split; [by apply (inv_keys w Hinv)|by apply (coh_src w Hc)].
Qed.

Lemma src_matches_upgraded_flag_witness :
  srcOf (dom demoHidden) !! 8 = Some "low.jpg" ∧
  srcOf (dom demoHidden) !! 7 = Some "high.jpg".
Proof.
  assert (reachable demoHidden) as Hr
    by exact (reachable_step demoStable (RegisterImage 8 demoOptions)
                reachable_demoStable).
  destruct (src_matches_upgraded_flag demoHidden 8
              (Loader.mkTracked 8 "low.jpg" "high.jpg" false) Hr eq_refl)
    as [_ H8].
  destruct (src_matches_upgraded_flag demoHidden 7
              (Loader.mkTracked 7 "low.jpg" "high.jpg" true) Hr eq_refl)
    as [_ H7].
  split; [exact H8 | exact H7].
Defined.

(** X3. In every reachable world the orchestrator's set of registered
    images, the observer's targets and the images tracked by the loader are
    the same images, each registered image occurs once, and only registered
    images are marked visible. *)
Theorem collections_in_sync w :
  reachable w →
  Observer.targets (visibility w) = registeredImages w ∧
  NoDup (registeredImages w) ∧
  (∀ el, el ∈ registeredImages w ↔ is_Some (loader w !! el)) ∧
  (∀ el, isVisible el w = true → el ∈ registeredImages w).
Proof.
  intros Hr. destruct (reachable_sound w Hr) as (Hinv & Hc & _).
  split_and!.
  - apply (coh_targets w Hc).
  - apply (coh_nodup w Hc).
  - intros el. split; [apply (inv_tracked w Hinv)|apply (coh_registered w Hc)].
  - apply (coh_visible w Hc).
Qed.

Lemma collections_in_sync_witness :
  Observer.targets (visibility demoHidden) = registeredImages demoHidden ∧
  NoDup (registeredImages demoHidden).
Proof.
  destruct (collections_in_sync demoHidden) as (H1 & H2 & _).
  - exact (reachable_step demoStable (RegisterImage 8 demoOptions)
             reachable_demoStable).
  - split; [exact H1 | exact H2].
Defined.

(** X4. In every reachable world at most one timeout is active, and it is
    the one whose handle the orchestrator holds, with [slowDurationMs] as its
    timeout. A stable SLOW orchestrator has SLOW as its current speed and no
    timeout active; a FAST current speed means the state is UNSTABLE. *)
Theorem timeout_discipline w :
  reachable w →
  length (timers (window w)) ≤ 1 ∧
  (∀ id, pending id (window w) = true ↔ slowTimer w = Some id) ∧
  (∀ id timeout, (id, timeout) ∈ timers (window w) →
     timeout = slowDurationMs (config w)) ∧
  (isSlowStable w = true →
     currentSpeed w = SLOW ∧ slowTimer w = None ∧ timers (window w) = []) ∧
  (currentSpeed w = FAST → phase w = UNSTABLE).
Proof.
  intros Hr. destruct (reachable_invariant w Hr) as [H1 H2 H3 _ _].
  split_and!.
  - rewrite H1. destruct (slowTimer w); simpl; lia.
  - intros id. unfold pending. rewrite bool_decide_eq_true, H1.
    destruct (slowTimer w) as [id0|]; simpl.
    + rewrite list_elem_of_singleton. split; [by intros ->|by intros [= ->]].
    + split; [by intros ?%elem_of_nil|done].
  - intros id timeout. rewrite H1. destruct (slowTimer w) as [id0|].
    + by intros [= _ ->]%list_elem_of_singleton.
    + by intros ?%elem_of_nil.
  - intros Hst. assert (slowTimer w = None) as Ht by auto.
    split_and!; [|done|by rewrite H1, Ht].
    destruct (currentSpeed w) eqn:Hs; [|done].
    destruct (H2 eq_refl). congruence.
  - intros Hs. destruct (H2 Hs) as [Hst Ht]. unfold phase. by rewrite Hst, Ht.
Qed.

Lemma timeout_discipline_witness :
  length (timers (window demoStabilizing)) ≤ 1 ∧
  currentSpeed demoStable = SLOW ∧
  phase demoFast = UNSTABLE.
Proof.
  destruct (timeout_discipline demoStabilizing reachable_demoStabilizing)
    as (H1 & _).
  destruct (timeout_discipline demoStable reachable_demoStable)
    as (_ & _ & _ & H2 & _).
  destruct (timeout_discipline demoFast reachable_demoFast)
    as (_ & _ & _ & _ & H3).
  split; [exact H1|]. split; [exact (proj1 (H2 eq_refl))|exact (H3 eq_refl)].
Defined.

(** *** Visibility changes *)

Lemma intersectionCallback_fields entries : ∀ w,
  let w' := intersectionCallback entries w in
  config w' = config w ∧ window w' = window w ∧
  registeredImages w' = registeredImages w ∧
  Observer.targets (visibility w') = Observer.targets (visibility w) ∧
  currentSpeed w' = currentSpeed w ∧ isSlowStable w' = isSlowStable w ∧
  slowTimer w' = slowTimer w.
Proof.
  unfold intersectionCallback.
  induction entries as [|e entries IH]; intros w; simpl; [done|].
  destruct (IH (intersectionEntry w e)) as (-> & -> & -> & -> & -> & -> & ->).
  destruct (intersectionEntry_fields w e)
    as (-> & -> & -> & -> & -> & -> & -> & _).
  done.
Qed.

(** X5. An image that becomes visible while the orchestrator is stable SLOW
    is upgraded within the same observer callback: in a reachable stable
    world, after a batch of entries that ends with the registered image
    reported as intersecting, the image is upgraded, shows the high source of
    its entry, and the orchestrator is still stable. *)
Theorem becoming_visible_while_stable_upgrades w el entries :
  reachable w → isSlowStable w = true → el ∈ registeredImages w →
  isSlowStable (step w (Intersections (entries ++ [(el, true)]))) = true ∧
  isVisible el (step w (Intersections (entries ++ [(el, true)]))) = true ∧
  isUpgraded el (step w (Intersections (entries ++ [(el, true)]))) = true ∧
  ∃ t, loader (step w (Intersections (entries ++ [(el, true)]))) !! el = Some t ∧
       srcOf (dom (step w (Intersections (entries ++ [(el, true)])))) !! el
         = Some (Loader.t_highSrc t).
Proof.
  intros Hr Hst Hel.
  assert (reachable (step w (Intersections (entries ++ [(el, true)])))) as Hr'
    by (by constructor).
  destruct (reachable_sound w Hr) as (_ & Hc & _).
  simpl in *. unfold intersectionEvent in *.
  rewrite filter_app in *.
  rewrite (filter_cons_True _ (el, true)) in *
    by (simpl; by rewrite (coh_targets w Hc)).
  rewrite filter_nil in *.
  set (l := filter _ entries) in *.
  unfold intersectionCallback in *. rewrite foldl_app in *. simpl in *.
  fold (intersectionCallback l w) in *.
  set (w1 := intersectionCallback l w) in *.
  destruct (intersectionCallback_fields l w)
    as (_ & _ & Hreg & _ & _ & Hst1 & _). fold w1 in Hreg, Hst1.
  destruct (intersectionEntry_fields w1 (el, true))
    as (_ & _ & Hreg2 & _ & _ & Hst2 & _ & Hvis2).
  assert (isSlowStable (intersectionEntry w1 (el, true)) = true) as Hst'
    by (by rewrite Hst2, Hst1).
  assert (isVisible el (intersectionEntry w1 (el, true)) = true) as Hv'.
  { rewrite Hvis2. simpl. by rewrite bool_decide_eq_true_2. }
  assert (el ∈ registeredImages (intersectionEntry w1 (el, true))) as Hel'
    by (by rewrite Hreg2, Hreg).
  destruct (reachable_sound _ Hr') as (_ & Hc' & Hs').
  assert (isUpgraded el (intersectionEntry w1 (el, true)) = true) as Hu
    by (by apply Hs').
  split_and!; [done..|]. unfold isUpgraded, Loader.isUpgraded in Hu.
  destruct (loader (intersectionEntry w1 (el, true)) !! el) as [t|] eqn:Et;
    [|done].
  exists t. split; [done|]. rewrite (coh_src _ Hc' el t Et). by rewrite Hu.
Qed.

Lemma reachable_demoHidden : reachable demoHidden.
Proof. apply reachable_step, reachable_demoStable. Qed.

Lemma becoming_visible_while_stable_upgrades_witness :
  isUpgraded 8 demoHidden = false ∧
  isUpgraded 8
    (step demoHidden (Intersections ([(7, false)] ++ [(8, true)]))) = true.
Proof.
  split; [reflexivity|].
  destruct (becoming_visible_while_stable_upgrades demoHidden 8 [(7, false)])
    as (_ & _ & H & _).
  - exact reachable_demoHidden.
  - reflexivity.
  - apply (bool_decide_unpack _). by vm_compute.
  - exact H.
Defined.

(** X6. Leaving the viewport does nothing but record the flag: an observer
    callback whose entries all report not intersecting changes only the
    observer's stored flags. The loader, the DOM, the timeouts and the
    stability state stay as they were, so an upgraded image stays upgraded. *)
Theorem leaving_viewport_changes_nothing w entries :
  (∀ e, e ∈ entries → e.2 = false) →
  step w (Intersections entries)
    = setVisibility (visibility (step w (Intersections entries))) w ∧
  (∀ el, isUpgraded el (step w (Intersections entries)) = isUpgraded el w) ∧
  dom (step w (Intersections entries)) = dom w.
Proof.
  intros Hall. simpl. unfold intersectionEvent.
  assert (∀ e, e ∈ filter (λ e : nat * bool,
                 e.1 ∈ Observer.targets (visibility w)) entries →
               e.2 = false) as Hall'.
  { intros e [_ He]%list_elem_of_filter. by apply Hall. }
  generalize dependent (filter (λ e : nat * bool,
                 e.1 ∈ Observer.targets (visibility w)) entries).
  clear Hall. intros l Hl.
  assert (intersectionCallback l w
          = setVisibility (visibility (intersectionCallback l w)) w) as Heq.
  { unfold intersectionCallback. revert w Hl.
    induction l as [|e l IH]; intros w Hl; simpl; [by destruct w|].
    assert (intersectionEntry w e
            = setVisibility (Observer.recordEntry e (visibility w)).1 w)
      as Hent.
    { unfold intersectionEntry, visibilityListener. simpl.
      rewrite (Hl e) by (apply elem_of_cons; by left). simpl.
      by case_bool_decide. }
    rewrite Hent.
    rewrite IH at 1 by (intros e' He'; apply Hl, elem_of_cons; by right).
    done. }
  split_and!; [done|..]; by rewrite Heq.
Qed.

Lemma leaving_viewport_changes_nothing_witness :
  isVisible 7 (step demoStable (Intersections [(7, false)])) = false ∧
  isUpgraded 7 (step demoStable (Intersections [(7, false)])) = true ∧
  dom (step demoStable (Intersections [(7, false)])) = dom demoStable.
Proof.
  destruct (leaving_viewport_changes_nothing demoStable [(7, false)])
    as (_ & H1 & H2).
  - intros e He. apply elem_of_cons in He as [->|He]; [reflexivity|].
    by apply elem_of_nil in He.
  - split; [reflexivity|]. split; [rewrite H1; reflexivity | exact H2].
Defined.

(** *** Upgrades need stability *)

Lemma intersectionEntry_upgrade_needs_stability w e el :
  isUpgraded el (intersectionEntry w e) = true →
  isUpgraded el w = true ∨ (isSlowStable w = true ∧ el ∈ registeredImages w).
Proof.
  unfold intersectionEntry, visibilityListener. simpl.
  repeat case_match; try (by left).
  unfold isUpgraded, Loader.isUpgraded. rewrite tryUpgradeImage_lookup. simpl.
  destruct (isSlowStable w) eqn:Hst; simpl; [|by left].
  repeat case_bool_decide; simpl; try (by left).
  intros _. right. split; [done|]. by subst el.
Qed.

Lemma intersectionCallback_upgrade_needs_stability entries el : ∀ w,
  isUpgraded el (intersectionCallback entries w) = true →
  isUpgraded el w = true ∨ (isSlowStable w = true ∧ el ∈ registeredImages w).
Proof.
  unfold intersectionCallback.
  induction entries as [|e entries IH]; intros w; simpl; [by left|].
  intros [Hu|[Hst Hel]]%IH.
  - by apply (intersectionEntry_upgrade_needs_stability w e).
  - destruct (intersectionEntry_fields w e)
      as (_ & _ & Hreg & _ & _ & Hst' & _).
    right. by rewrite <- Hst', <- Hreg.
Qed.

(** X7. No upgrade outside the stable SLOW state: whenever an event turns an
    image from not upgraded to upgraded, the orchestrator is stable SLOW and
    the image is registered when the event has been handled. *)
Theorem upgrade_needs_stability w ev el :
  isUpgraded el w = false → isUpgraded el (step w ev) = true →
  isSlowStable (step w ev) = true ∧ el ∈ registeredImages (step w ev).
Proof.
  intros Hu Hu'. destruct ev as [now y|id|entries|x options|]; simpl in *.
  - exfalso. revert Hu'. unfold scrollEvent. case_match; [|congruence].
    unfold velocityListener, handleSpeedChange, isUpgraded in *. simpl.
    repeat case_match; simpl; congruence.
  - unfold timerEvent in *. destruct (pending id (window w)); [|congruence].
    unfold slowTimerCallback in *. simpl in *.
    destruct (currentSpeed w); [exfalso; unfold isUpgraded in *; simpl in *;
                                congruence|].
    set (w1 := setIsSlowStable true _) in *.
    destruct (attempt_fold_frame (registeredImages w1) w1) as [s Hfr].
    unfold attemptUpgradesForVisibleImages in *.
    split; [by rewrite Hfr|]. rewrite Hfr. simpl.
    unfold isUpgraded, Loader.isUpgraded in Hu, Hu'.
    rewrite attempt_fold_lookup in Hu'. simpl in Hu'.
    destruct (bool_decide (el ∈ registeredImages w)) eqn:Hreg.
    + by apply bool_decide_eq_true in Hreg.
    + exfalso. rewrite andb_false_r in Hu'. simpl in Hu'. congruence.
  - unfold intersectionEvent in *.
    destruct (intersectionCallback_upgrade_needs_stability _ el w Hu')
      as [?|[Hst Hel]]; [congruence|].
    by destruct (intersectionCallback_fields
                   (filter (λ e : nat * bool,
                      e.1 ∈ Observer.targets (visibility w)) entries) w)
      as (_ & _ & -> & _ & _ & -> & _).
  - exfalso. rewrite registerImage_no_upgrade in Hu'.
    destruct (registerAndObserve_fields x options w)
      as (_ & _ & _ & Hl & _).
    unfold isUpgraded, Loader.isUpgraded in *. rewrite Hl in Hu'.
    destruct (decide (el = x)) as [->|Hne].
    + by rewrite lookup_insert_eq in Hu'.
    + rewrite lookup_insert_ne in Hu' by done. congruence.
  - exfalso. destruct (destroy_fields w) as (_ & _ & _ & _ & _ & _ & _ & Hl & _).
    unfold isUpgraded, Loader.isUpgraded in Hu'. by rewrite Hl in Hu'.
Qed.

Lemma upgrade_needs_stability_witness :
  isSlowStable (step demoVisible (TimerFired 1)) = true ∧
  7 ∈ registeredImages (step demoVisible (TimerFired 1)).
Proof.
  apply (upgrade_needs_stability demoVisible (TimerFired 1) 7); reflexivity.
Defined.

Lemma step_stays_unstable w ev :
  isSlowStable w = false → (∀ id, ev ≠ TimerFired id) →
  isSlowStable (step w ev) = false.
Proof.
  intros Hst Hev. destruct ev as [now y|id|entries|x options|]; simpl.
  - unfold scrollEvent. case_match; [|done].
    unfold velocityListener, handleSpeedChange. simpl.
    repeat case_match; simpl; congruence.
  - by destruct (Hev id).
  - unfold intersectionEvent.
    by destruct (intersectionCallback_fields
                   (filter (λ e : nat * bool,
                      e.1 ∈ Observer.targets (visibility w)) entries) w)
      as (_ & _ & _ & _ & _ & -> & _).
  - rewrite registerImage_no_upgrade.
    by destruct (registerAndObserve_fields x options w)
      as (_ & _ & _ & _ & _ & _ & _ & _ & -> & _).
  - by destruct (destroy_fields w) as (_ & -> & _).
Qed.

Lemma step_unstable_no_upgrade w ev el :
  isSlowStable w = false → (∀ id, ev ≠ TimerFired id) →
  isUpgraded el (step w ev) = true → isUpgraded el w = true.
Proof.
  intros Hst Hev. destruct ev as [now y|id|entries|x options|]; simpl.
  - unfold scrollEvent. case_match; [|done].
    unfold velocityListener, handleSpeedChange, isUpgraded. simpl.
    by repeat case_match.
  - by destruct (Hev id).
  - unfold intersectionEvent.
    intros [?|[? _]]%intersectionCallback_upgrade_needs_stability;
      [done|congruence].
  - rewrite registerImage_no_upgrade.
    destruct (registerAndObserve_fields x options w) as (_ & _ & _ & Hl & _).
    unfold isUpgraded, Loader.isUpgraded. rewrite Hl.
    destruct (decide (el = x)) as [->|Hne].
    + by rewrite lookup_insert_eq.
    + by rewrite lookup_insert_ne.
  - destruct (destroy_fields w) as (_ & _ & _ & _ & _ & _ & _ & Hl & _).
    unfold isUpgraded, Loader.isUpgraded. by rewrite Hl.
Qed.

(** X8. Without a timeout firing the orchestrator never becomes stable and
    nothing is upgraded: from a world that is not stable SLOW, through any
    run of scroll samples, observer callbacks, registrations and [destroy]
    calls, the orchestrator stays not stable and every image found upgraded
    at the end was upgraded at the start. *)
Theorem never_stable_never_upgrades evs : ∀ w,
  isSlowStable w = false → (∀ id, TimerFired id ∉ evs) →
  isSlowStable (run w evs) = false ∧
  ∀ el, isUpgraded el (run w evs) = true → isUpgraded el w = true.
Proof.
  induction evs as [|ev evs IH]; intros w Hst Hev; simpl; [done|].
  assert (∀ id, ev ≠ TimerFired id) as Hne.
  { intros id ->. apply (Hev id), elem_of_cons. by left. }
  destruct (IH (step w ev)) as [Hst' Hup].
  - by apply step_stays_unstable.
  - intros id Hin. apply (Hev id), elem_of_cons. by right.
  - split; [done|]. intros el Hu.
    apply (step_unstable_no_upgrade w ev el); [done..|]. by apply Hup.
Qed.

Lemma never_stable_never_upgrades_witness :
  isSlowStable
    (run demoVisible [Scroll 10%float 1%float; Intersections [(7, true)];
                      Scroll 20%float 2%float;
                      RegisterImage 8 demoOptions]) = false ∧
  isUpgraded 7
    (run demoVisible [Scroll 10%float 1%float; Intersections [(7, true)];
                      Scroll 20%float 2%float;
                      RegisterImage 8 demoOptions]) = false.
Proof.
  destruct (never_stable_never_upgrades
              [Scroll 10%float 1%float; Intersections [(7, true)];
               Scroll 20%float 2%float; RegisterImage 8 demoOptions]
              demoVisible) as [H1 H2].
  - reflexivity.
  - intros id Hin.
    repeat (apply elem_of_cons in Hin as [Heq|Hin]; [discriminate Heq|]).
    by apply elem_of_nil in Hin.
  - split; [exact H1|].
    destruct (isUpgraded 7 (run demoVisible _)) eqn:E; [|reflexivity].
    apply H2 in E. vm_compute in E. discriminate E.
Defined.

(** *** Teardown and the debounce timeout *)

(** X9. [destroy] is idempotent: a second call changes nothing. *)
Theorem destroy_idempotent w : destroy (destroy w) = destroy w.
Proof.
  unfold destroy. simpl.
  destruct (slowTimer w) as [id|] eqn:Et; simpl; rewrite ?Et; done.
Qed.

(** X10. A FAST sample cancels the running debounce for good. In a reachable
    world with a timeout pending, after a FAST sample followed by a SLOW
    sample the orchestrator holds a new handle, different from the old one;
    the old timeout firing does nothing; the orchestrator is not stable; and
    it becomes stable when the new timeout fires. *)
Theorem cancelled_timeout_never_stabilises w id fast slow :
  reachable w → slowTimer w = Some id →
  Velocity.speed fast = FAST → Velocity.speed slow = SLOW →
  ∃ id', slowTimer (velocityListener slow (velocityListener fast w)) = Some id' ∧
    id' ≠ id ∧
    isSlowStable (velocityListener slow (velocityListener fast w)) = false ∧
    timerEvent id (velocityListener slow (velocityListener fast w))
      = velocityListener slow (velocityListener fast w) ∧
    isSlowStable
      (timerEvent id' (velocityListener slow (velocityListener fast w))) = true.
Proof.
  intros Hr Ht Hf Hs.
  destruct (reachable_sound w Hr) as (Hinv & Hc & _).
  assert (id < nextTimerId (window w)) as Hlt.
  { apply (coh_fresh w Hc). rewrite (inv_timers w Hinv), Ht. simpl.
    by apply list_elem_of_singleton. }
  destruct (velocityListener_fast fast w Hf)
    as (_ & Hst1 & Ht1 & _ & _ & Htm1 & _).
  specialize (Htm1 Hinv).
  assert (nextTimerId (window (velocityListener fast w))
          = nextTimerId (window w)) as Hnext.
  { unfold velocityListener, handleSpeedChange. simpl. rewrite Hf. simpl.
    by rewrite Ht. }
  destruct (velocityListener_slow_starts slow _ Hs Hst1 Ht1)
    as (Ht2 & Htm2 & Hst2 & _).
  rewrite Hnext in Ht2. rewrite Hnext, Htm1 in Htm2. simpl in Htm2.
  exists (nextTimerId (window w)). split_and!; [done|lia|done|..].
  - apply timerEvent_not_pending. unfold pending. rewrite Htm2. simpl.
    apply bool_decide_eq_false_2. intros ->%list_elem_of_singleton. lia.
  - unfold timerEvent, pending. rewrite Htm2. simpl.
    rewrite bool_decide_eq_true_2 by (by apply list_elem_of_singleton).
    set (w2 := setWindow _ _).
    assert (currentSpeed w2 = SLOW) as Hsp.
    { unfold w2, velocityListener. simpl.
      match goal with |- currentSpeed (handleSpeedChange ?x) = _ =>
        destruct (handleSpeedChange_keeps x) as (_ & _ & -> & _) end.
      done. }
    by destruct (slowTimerCallback_slow w2 Hsp) as (-> & _).
Qed.

Lemma cancelled_timeout_never_stabilises_witness :
  ∃ id',
    slowTimer
      (velocityListener (Velocity.mkVelocityState 0.1%float SLOW)
         (velocityListener (Velocity.mkVelocityState 10%float FAST)
            demoStabilizing)) = Some id' ∧
    id' ≠ 1.
Proof.
  destruct (cancelled_timeout_never_stabilises demoStabilizing 1
              (Velocity.mkVelocityState 10%float FAST)
              (Velocity.mkVelocityState 0.1%float SLOW)
              reachable_demoStabilizing eq_refl eq_refl eq_refl)
    as (id' & H1 & H2 & _).
  exists id'. split; [exact H1 | exact H2].
Defined.

(** *** The loader on its own *)

(** X11. Unregistering or clearing only forgets: after [unregisterImage] the
    element counts as not upgraded and [upgradeImage] on it is refused
    without any change, while the other elements keep their entries; an
    element registered and then unregistered leaves the tracked entries as
    they were before; after [clear] the same holds of every element. *)
Theorem unregister_and_clear_forget el x cfg (s : Dom * Loader.Images) :
  Loader.unregisterImage el s.2 !! el = None ∧
  Loader.isUpgraded el (Loader.unregisterImage el s.2) = false ∧
  Loader.upgradeImage el (s.1, Loader.unregisterImage el s.2)
    = (false, (s.1, Loader.unregisterImage el s.2)) ∧
  (x ≠ el → Loader.unregisterImage el s.2 !! x = s.2 !! x) ∧
  (s.2 !! el = None →
     Loader.unregisterImage el (Loader.registerImage el cfg s).2 = s.2) ∧
  Loader.isUpgraded x (Loader.clear s.2) = false ∧
  Loader.upgradeImage x (s.1, Loader.clear s.2)
    = (false, (s.1, Loader.clear s.2)).
Proof.
  unfold Loader.unregisterImage, Loader.clear, Loader.isUpgraded,
    Loader.upgradeImage, Loader.registerImage. simpl.
  rewrite lookup_delete_eq, lookup_empty. split_and!; try done.
  - intros Hne. by apply lookup_delete_ne.
  - apply delete_insert_id.
Qed.

Lemma unregister_and_clear_forget_witness :
  Loader.unregisterImage 7
    (Loader.registerImage 7 demoOptions (emptyDom, ∅)).2 = ∅ ∧
  Loader.unregisterImage 7
    (Loader.registerImage 8 demoOptions (emptyDom, ∅)).2 !! 8
    = (Loader.registerImage 8 demoOptions (emptyDom, ∅)).2 !! 8.
Proof.
  destruct (unregister_and_clear_forget 7 8 demoOptions (emptyDom, ∅))
    as (_ & _ & _ & _ & H1 & _).
  destruct (unregister_and_clear_forget 7 8 demoOptions
              (Loader.registerImage 8 demoOptions (emptyDom, ∅)))
    as (_ & _ & _ & H2 & _).
  split; [apply H1; reflexivity | apply H2; discriminate].
Defined.

(** X12. The loader touches one image at a time: registering an element
    leaves the entry and the [src] of every other element as they were, and
    so does upgrading an element whose entry records that element itself;
    neither changes any data-label. *)
Theorem loader_touches_one_image el x cfg (s : Dom * Loader.Images) :
  x ≠ el →
  (Loader.registerImage el cfg s).2 !! x = s.2 !! x ∧
  srcOf (Loader.registerImage el cfg s).1 !! x = srcOf s.1 !! x ∧
  dataLabel (Loader.registerImage el cfg s).1 = dataLabel s.1 ∧
  ((∀ t, s.2 !! el = Some t → Loader.element t = el) →
     (Loader.upgradeImage el s).2.2 !! x = s.2 !! x ∧
     srcOf (Loader.upgradeImage el s).2.1 !! x = srcOf s.1 !! x) ∧
  dataLabel (Loader.upgradeImage el s).2.1 = dataLabel s.1.
Proof.
  intros Hne. unfold Loader.registerImage, Loader.upgradeImage. simpl.
  split_and!.
  - by rewrite lookup_insert_ne.
  - by rewrite lookup_insert_ne.
  - done.
  - intros Hk. destruct (s.2 !! el) as [t|] eqn:Et; [|done].
    destruct (Loader.upgraded t); [done|]. simpl.
    rewrite (Hk t eq_refl). by rewrite !lookup_insert_ne.
  - destruct (s.2 !! el) as [t|]; [|done]. by destruct (Loader.upgraded t).
Qed.

Lemma loader_touches_one_image_witness :
  srcOf (Loader.upgradeImage 7
           (Loader.registerImage 7 demoOptions
              (Loader.registerImage 8 demoOptions (emptyDom, ∅)))).2.1 !! 8
    = Some "low.jpg".
Proof.
  destruct (loader_touches_one_image 7 8 demoOptions
              (Loader.registerImage 7 demoOptions
                 (Loader.registerImage 8 demoOptions (emptyDom, ∅))))
    as (_ & _ & _ & H & _); [discriminate|].
  destruct H as [_ H].
  - intros t Ht. vm_compute in Ht. injection Ht as <-. reflexivity.
  - rewrite H. reflexivity.
Defined.

(** *** The observer on its own *)

(** X13. Visibility changes are edge triggered. An observer entry produces
    a change for the listener exactly when the flag stored for the target
    differs from the reported one; the flag is stored in both cases; the same
    entry repeated produces nothing, and in the core it then leaves the whole
    world unchanged. After [observeImage], a first report of not
    intersecting produces no change and a first report of intersecting
    does. *)
Theorem visibility_changes_are_edge_triggered x b (st : Observer.State) w :
  ((Observer.recordEntry (x, b) st).2 = None ↔
     Observer.visibilityMap st !! x = Some b) ∧
  (Observer.visibilityMap st !! x ≠ Some b →
     (Observer.recordEntry (x, b) st).2 = Some (Observer.mkChange x b)) ∧
  Observer.isVisible x (Observer.recordEntry (x, b) st).1 = b ∧
  (Observer.recordEntry (x, b) (Observer.recordEntry (x, b) st).1).2 = None ∧
  (Observer.visibilityMap (visibility w) !! x = Some b →
     intersectionEntry w (x, b) = w) ∧
  (Observer.recordEntry (x, false) (Observer.observeImage x st)).2 = None ∧
  (Observer.recordEntry (x, true) (Observer.observeImage x st)).2
    = Some (Observer.mkChange x true).
Proof.
  unfold Observer.recordEntry, Observer.isVisible, Observer.observeImage.
  simpl. split_and!.
  - case_bool_decide as H; split; intros H'; done.
  - intros H. by rewrite bool_decide_eq_true_2.
  - rewrite lookup_insert_eq. destruct b; [by apply bool_decide_eq_true_2|].
    by apply bool_decide_eq_false_2.
  - rewrite lookup_insert_eq. rewrite bool_decide_eq_false_2; [done|].
    by intros H.
  - intros H. unfold intersectionEntry, Observer.recordEntry. simpl.
    rewrite bool_decide_eq_false_2 by (by intros ?).
    rewrite insert_id by done. destruct w as [? ? ? ? ? [? ? ?] ? ? ? ? ?].
    done.
  - rewrite lookup_insert_eq. rewrite bool_decide_eq_false_2; [done|].
    by intros H.
  - rewrite lookup_insert_eq. by rewrite bool_decide_eq_true_2.
Qed.

Lemma visibility_changes_are_edge_triggered_witness :
  (Observer.recordEntry (7, true) (visibility demoHidden)).2 = None ∧
  (Observer.recordEntry (8, true) (visibility demoHidden)).2
    = Some (Observer.mkChange 8 true) ∧
  intersectionEntry demoHidden (7, true) = demoHidden.
Proof.
  destruct (visibility_changes_are_edge_triggered 7 true
              (visibility demoHidden) demoHidden) as (H1 & _ & _ & _ & H2 & _).
  destruct (visibility_changes_are_edge_triggered 8 true
              (visibility demoHidden) demoHidden) as (_ & H3 & _).
  split; [apply H1; reflexivity|].
  split; [apply H3; discriminate | apply H2; reflexivity].
Defined.

(** X14. Stopping observation forgets the image: after [unobserveImage] the
    image is not visible and not a target, other images keep their flag and
    their place among the targets, and [unobserveImage] undoes
    [observeImage] of an image that was not observed before. After
    [disconnect] no image is visible and there are no targets. *)
Theorem unobserve_forgets img x (st : Observer.State) :
  Observer.isVisible img (Observer.unobserveImage img st) = false ∧
  (img ∉ Observer.targets (Observer.unobserveImage img st)) ∧
  (x ≠ img →
     Observer.isVisible x (Observer.unobserveImage img st)
       = Observer.isVisible x st ∧
     (x ∈ Observer.targets (Observer.unobserveImage img st) ↔
      x ∈ Observer.targets st)) ∧
  (img ∉ Observer.targets st → Observer.visibilityMap st !! img = None →
     Observer.unobserveImage img (Observer.observeImage img st) = st) ∧
  Observer.isVisible x (Observer.disconnect st) = false ∧
  Observer.targets (Observer.disconnect st) = [].
Proof.
  unfold Observer.isVisible, Observer.unobserveImage, Observer.observeImage,
    Observer.disconnect. simpl. split_and!; try done.
  - rewrite lookup_delete_eq. by apply bool_decide_eq_false_2.
  - by intros [? _]%list_elem_of_filter.
  - intros Hne. rewrite lookup_delete_ne by done. split; [done|].
    rewrite list_elem_of_filter. tauto.
  - intros Hnot Hnone. rewrite bool_decide_eq_false_2 by done.
    rewrite delete_insert_id by done.
    rewrite filter_app, filter_cons_False, filter_nil, app_nil_r
      by (by intros ?).
    assert (filter (λ y, y ≠ img) (Observer.targets st) = Observer.targets st)
      as ->; [|by destruct st].
    revert Hnot. generalize (Observer.targets st). intros l.
    induction l as [|a l IH]; intros Hnot; [done|].
    apply not_elem_of_cons in Hnot as [Hne Hnot].
    rewrite filter_cons_True by done. by rewrite IH.
Qed.

Lemma unobserve_forgets_witness :
  Observer.isVisible 7
    (Observer.unobserveImage 8 (visibility demoHidden)) = true ∧
  Observer.unobserveImage 9
    (Observer.observeImage 9 (visibility demoHidden)) = visibility demoHidden.
Proof.
  destruct (unobserve_forgets 8 7 (visibility demoHidden))
    as (_ & _ & H1 & _).
  destruct (unobserve_forgets 9 7 (visibility demoHidden))
    as (_ & _ & _ & H2 & _).
  destruct H1 as [H1 _]; [discriminate|].
  split; [rewrite H1; reflexivity|].
  apply H2; [|reflexivity].
  apply (bool_decide_unpack _). by vm_compute.
Defined.

(** *** Registration in the core *)

Lemma dataLabel_tryUpgradeImage img w :
  dataLabel (dom (tryUpgradeImage img w)) = dataLabel (dom w).
Proof.
  by destruct (tryUpgradeImage_cases img w)
    as [->|(_ & _ & t & _ & _ & ->)].
Qed.

Lemma dataLabel_attempt w :
  dataLabel (dom (attemptUpgradesForVisibleImages w)) = dataLabel (dom w).
Proof.
  unfold attemptUpgradesForVisibleImages.
  generalize (registeredImages w). intros l. revert w.
  induction l as [|a l IH]; intros w; simpl; [done|].
  rewrite IH. destruct (negb (isVisible a w)); [done|].
  apply dataLabel_tryUpgradeImage.
Qed.

Lemma dataLabel_intersectionCallback entries : ∀ w,
  dataLabel (dom (intersectionCallback entries w)) = dataLabel (dom w).
Proof.
  unfold intersectionCallback.
  induction entries as [|e entries IH]; intros w; simpl; [done|].
  rewrite IH. unfold intersectionEntry, visibilityListener.
  repeat case_match; try done. by rewrite dataLabel_tryUpgradeImage.
Qed.

Lemma dataLabel_registerAndObserve el options w :
  dataLabel (dom (registerAndObserve el options w))
    = if truthy (getLabel el (dom w)) then dataLabel (dom w)
      else <[el := Loader.highSrc options]> (dataLabel (dom w)).
Proof.
  unfold registerAndObserve. simpl.
  by destruct (truthy (getLabel el (dom w))).
Qed.

(** X15. The data-label of an element is written by [registerImage] only,
    and only when the element has no label or an empty one: then it becomes
    the high source of that registration. A non-empty label is kept, also
    when the element is registered again with other sources; the labels of
    other elements are not touched; no other event changes any label. *)
Theorem labels_are_written_once el x options w :
  (truthy (getLabel el (dom w)) = true →
     getLabel el (dom (registerImage el options w)) = getLabel el (dom w)) ∧
  (truthy (getLabel el (dom w)) = false →
     getLabel el (dom (registerImage el options w))
       = Some (Loader.highSrc options)) ∧
  (x ≠ el →
     getLabel x (dom (registerImage el options w)) = getLabel x (dom w)) ∧
  (∀ ev, (∀ el' options', ev ≠ RegisterImage el' options') →
     dataLabel (dom (step w ev)) = dataLabel (dom w)).
Proof.
  rewrite registerImage_no_upgrade.
  assert (∀ y, getLabel y (dom (registerAndObserve el options w))
               = (if truthy (getLabel el (dom w)) then dataLabel (dom w)
                  else <[el := Loader.highSrc options]> (dataLabel (dom w)))
                 !! y) as Hlabel.
  { intros y. unfold getLabel at 1. by rewrite dataLabel_registerAndObserve. }
  rewrite !Hlabel. split_and!.
  - by intros ->.
  - intros ->. apply lookup_insert_eq.
  - intros Hne. destruct (truthy (getLabel el (dom w))); [done|].
    by rewrite lookup_insert_ne.
  - intros ev Hev. destruct ev as [now y|id|entries|x' options'|]; simpl.
    + unfold scrollEvent. destruct (scrollListening (window w)); [|done].
      unfold velocityListener, handleSpeedChange. simpl. by repeat case_match.
    + unfold timerEvent. destruct (pending id (window w)); [|done].
      unfold slowTimerCallback. simpl.
      destruct (currentSpeed w); [done|]. by rewrite dataLabel_attempt.
    + apply dataLabel_intersectionCallback.
    + by destruct (Hev x' options').
    + by destruct (destroy_fields w) as (_ & _ & _ & _ & _ & _ & _ & _ & ->).
Qed.

Lemma labels_are_written_once_witness :
  getLabel 7 (dom demoStabilizing) = None ∧
  getLabel 7 (dom (registerImage 7 demoOptions demoStabilizing))
    = Some "high.jpg" ∧
  getLabel 7
    (dom (registerImage 7 (Loader.mkConfig "low2.jpg" "high2.jpg")
            (registerImage 7 demoOptions demoStabilizing)))
    = Some "high.jpg" ∧
  getLabel 8 (dom (registerImage 7 demoOptions demoStabilizing)) = None ∧
  dataLabel (dom (step demoVisible (TimerFired 1))) = dataLabel (dom demoVisible).
Proof.
  split; [reflexivity|].
  destruct (labels_are_written_once 7 8 demoOptions demoStabilizing)
    as (_ & H1 & H2 & _).
  destruct (labels_are_written_once 7 8 (Loader.mkConfig "low2.jpg" "high2.jpg")
              (registerImage 7 demoOptions demoStabilizing)) as (H3 & _).
  destruct (labels_are_written_once 7 8 demoOptions demoVisible)
    as (_ & _ & _ & H4).
  split; [apply H1; reflexivity|].
  split; [rewrite H3; [apply H1|]; reflexivity|].
  split; [rewrite H2; [reflexivity|discriminate]|].
  apply H4. intros el' options'. discriminate.
Defined.

(** X16. Registering an image disturbs neither the debounce nor the other
    images: the window with its timeouts, the timer handle, the stability
    flag and the current speed stay as they were; every other image keeps
    its loader entry, its [src], its visibility flag and its membership in
    the registered set; the registered image itself is in the registered set
    and among the observer's targets afterwards. *)
Theorem registration_leaves_others_alone el x options w :
  window (registerImage el options w) = window w ∧
  slowTimer (registerImage el options w) = slowTimer w ∧
  isSlowStable (registerImage el options w) = isSlowStable w ∧
  currentSpeed (registerImage el options w) = currentSpeed w ∧
  el ∈ registeredImages (registerImage el options w) ∧
  el ∈ Observer.targets (visibility (registerImage el options w)) ∧
  (x ≠ el →
     loader (registerImage el options w) !! x = loader w !! x ∧
     srcOf (dom (registerImage el options w)) !! x = srcOf (dom w) !! x ∧
     isVisible x (registerImage el options w) = isVisible x w ∧
     (x ∈ registeredImages (registerImage el options w) ↔
      x ∈ registeredImages w)).
Proof.
  rewrite registerImage_no_upgrade.
  destruct (registerAndObserve_fields el options w)
    as (_ & Hw & Hr & Hl & Hv & _ & Hs & _ & Hst & Ht & Hsrc).
  split_and!; try done.
  - rewrite Hr. apply elem_of_setAdd. by left.
  - rewrite Hv. unfold Observer.observeImage. simpl.
    case_bool_decide; [done|]. apply elem_of_app. right.
    by apply list_elem_of_singleton.
  - intros Hne. unfold isVisible. rewrite Hl, Hsrc, Hv, Hr.
    unfold Observer.isVisible, Observer.observeImage. simpl.
    rewrite !lookup_insert_ne by done. split_and!; try done.
    rewrite elem_of_setAdd. split; [by intros [?|?]|by right].
Qed.

Lemma registration_leaves_others_alone_witness :
  loader (registerImage 8 demoOptions demoStable) !! 7 = loader demoStable !! 7 ∧
  isVisible 7 (registerImage 8 demoOptions demoStable) = true.
Proof.
  destruct (registration_leaves_others_alone 8 7 demoOptions demoStable)
    as (_ & _ & _ & _ & _ & _ & H).
  destruct H as (H1 & _ & H2 & _); [discriminate|].
  split; [exact H1 | rewrite H2; reflexivity].
Defined.

(** *** From creation to the first upgrade *)

Lemma timerEvent_fires id w :
  pending id (window w) = true → currentSpeed w = SLOW →
  isSlowStable (timerEvent id w) = true ∧
  registeredImages (timerEvent id w) = registeredImages w ∧
  visibility (timerEvent id w) = visibility w ∧
  (∀ el, loader (timerEvent id w) !! el = loader w !! el ∨
         loader (timerEvent id w) !! el
           = Loader.markUpgraded <$> loader w !! el).
Proof.
  intros Hp Hs. unfold timerEvent. rewrite Hp.
  unfold slowTimerCallback. simpl. rewrite Hs.
  set (w1 := setIsSlowStable true _).
  destruct (attempt_fold_frame (registeredImages w1) w1) as [s Hfr].
  unfold attemptUpgradesForVisibleImages.
  split_and!; [by rewrite Hfr..|].
  intros el. rewrite attempt_fold_lookup. simpl. case_match; auto.
Qed.

Lemma intersectionEntry_entry_kept w e el :
  loader (intersectionEntry w e) !! el = loader w !! el ∨
  loader (intersectionEntry w e) !! el = Loader.markUpgraded <$> loader w !! el.
Proof.
  unfold intersectionEntry, visibilityListener.
  repeat case_match; try (by left).
  rewrite tryUpgradeImage_lookup. simpl. case_match; auto.
Qed.

(** X17. From creation to the first upgrade, for every configuration, page
    and image: once the image is registered, reported visible and the first
    debounce timeout has fired, in either order of the last two, the image is
    upgraded and shows the high source given at registration; as long as the
    timeout has not fired, the visible image is not upgraded. *)
Theorem slow_and_visible_gets_upgraded config d scrollY now el options :
  (isUpgraded el
     (run (coreAtStart config d scrollY now)
        [RegisterImage el options; Intersections [(el, true)]]) = false) ∧
  (isUpgraded el
     (run (coreAtStart config d scrollY now)
        [RegisterImage el options; Intersections [(el, true)]; TimerFired 1])
     = true ∧
   srcOf (dom
     (run (coreAtStart config d scrollY now)
        [RegisterImage el options; Intersections [(el, true)]; TimerFired 1]))
     !! el = Some (Loader.highSrc options)) ∧
  (isUpgraded el
     (run (coreAtStart config d scrollY now)
        [RegisterImage el options; TimerFired 1; Intersections [(el, true)]])
     = true ∧
   srcOf (dom
     (run (coreAtStart config d scrollY now)
        [RegisterImage el options; TimerFired 1; Intersections [(el, true)]]))
     !! el = Some (Loader.highSrc options)).
Proof.
  set (w := coreAtStart config d scrollY now).
  assert (reachable w) as Hr by (by apply (reachable_init config d scrollY now)).
  set (w1 := step w (RegisterImage el options)).
  assert (reachable w1) as Hr1 by (by constructor).
  (* the world after registration *)
  assert (window w1 = window w ∧ currentSpeed w1 = SLOW ∧
          isSlowStable w1 = false ∧ el ∈ registeredImages w1 ∧
          loader w1 !! el
            = Some (Loader.mkTracked el (Loader.lowSrc options)
                      (Loader.highSrc options) false))
    as (Hw1 & Hs1 & Hst1 & Hel1 & Hl1).
  { unfold w1. simpl. rewrite registerImage_no_upgrade.
    destruct (registerAndObserve_fields el options w)
      as (_ & -> & -> & -> & _ & _ & -> & _ & -> & _).
    split_and!; try done.
    - apply elem_of_setAdd. by left.
    - apply lookup_insert_eq. }
  assert (pending 1 (window w1) = true) as Hp1.
  { rewrite Hw1. reflexivity. }
  (* a single entry for the registered image is delivered *)
  assert (∀ w', reachable w' → el ∈ registeredImages w' →
            step w' (Intersections [(el, true)])
              = intersectionEntry w' (el, true)) as Hdeliver.
  { intros w' Hr' Hel'. simpl. unfold intersectionEvent.
    destruct (reachable_sound w' Hr') as (_ & Hc' & _).
    rewrite filter_cons_True by (simpl; by rewrite (coh_targets w' Hc')).
    by rewrite filter_nil. }
  (* how the final facts follow in a reachable stable world *)
  assert (∀ w', reachable w' → isSlowStable w' = true →
            el ∈ registeredImages w' → isVisible el w' = true →
            (∃ t, loader w' !! el = Some t ∧
                  Loader.t_highSrc t = Loader.highSrc options) →
            isUpgraded el w' = true ∧
            srcOf (dom w') !! el = Some (Loader.highSrc options)) as Hfinal.
  { intros w' Hr' Hst' Hel' Hv' (t & Ht & Hhigh).
    destruct (reachable_sound w' Hr') as (_ & Hc' & Hs').
    assert (isUpgraded el w' = true) as Hu by (by apply Hs').
    split; [done|]. rewrite (coh_src w' Hc' el t Ht).
    unfold isUpgraded, Loader.isUpgraded in Hu. rewrite Ht in Hu.
    by rewrite Hu, Hhigh. }
  split; [|split].
  - (* visible but not stable *)
    change (run w [RegisterImage el options; Intersections [(el, true)]])
      with (step w1 (Intersections [(el, true)])).
    destruct (isUpgraded el (step w1 (Intersections [(el, true)]))) eqn:Hu;
      [|done].
    rewrite Hdeliver in Hu by done.
    apply intersectionEntry_upgrade_needs_stability in Hu as [Hu|[Hst _]].
    + unfold isUpgraded, Loader.isUpgraded in Hu. by rewrite Hl1 in Hu.
    + congruence.
  - (* visible, then the timeout fires *)
    change (run w [RegisterImage el options; Intersections [(el, true)];
                   TimerFired 1])
      with (step (step w1 (Intersections [(el, true)])) (TimerFired 1)).
    set (w2 := step w1 (Intersections [(el, true)])).
    assert (reachable w2) as Hr2 by (by constructor).
    assert (w2 = intersectionEntry w1 (el, true)) as Hw2 by (by apply Hdeliver).
    destruct (intersectionEntry_fields w1 (el, true))
      as (_ & Hwin2 & Hreg2 & _ & Hsp2 & _ & _ & Hvis2).
    rewrite <- Hw2 in Hwin2, Hreg2, Hsp2, Hvis2.
    destruct (timerEvent_fires 1 w2) as (Hst3 & Hreg3 & Hv3 & Hl3).
    { by rewrite Hwin2. }
    { by rewrite Hsp2. }
    apply Hfinal.
    + by constructor.
    + done.
    + simpl. by rewrite Hreg3, Hreg2.
    + simpl. unfold isVisible. rewrite Hv3. fold (isVisible el w2).
      rewrite Hvis2. simpl. by rewrite bool_decide_eq_true_2.
    + simpl.
      assert (∃ t, loader w2 !! el = Some t ∧
                   Loader.t_highSrc t = Loader.highSrc options)
        as (t & Ht & Hhigh).
      { rewrite Hw2.
        destruct (intersectionEntry_entry_kept w1 (el, true) el) as [->| ->];
          rewrite Hl1; eauto. }
      destruct (Hl3 el) as [->| ->]; rewrite Ht; eauto.
  - (* the timeout fires, then visible *)
    change (run w [RegisterImage el options; TimerFired 1;
                   Intersections [(el, true)]])
      with (step (step w1 (TimerFired 1)) (Intersections [(el, true)])).
    set (w2 := step w1 (TimerFired 1)).
    assert (reachable w2) as Hr2 by (by constructor).
    destruct (timerEvent_fires 1 w1 Hp1 Hs1) as (Hst2 & Hreg2 & _ & Hl2).
    fold (step w1 (TimerFired 1)) in Hst2, Hreg2, Hl2. fold w2 in Hst2, Hreg2, Hl2.
    assert (el ∈ registeredImages w2) as Hel2 by (by rewrite Hreg2).
    rewrite Hdeliver by done.
    destruct (intersectionEntry_fields w2 (el, true))
      as (_ & _ & Hreg3 & _ & _ & Hst3 & _ & Hvis3).
    apply Hfinal.
    + rewrite <- Hdeliver by done. by constructor.
    + by rewrite Hst3.
    + by rewrite Hreg3.
    + rewrite Hvis3. simpl. by rewrite bool_decide_eq_true_2.
    + assert (∃ t, loader w2 !! el = Some t ∧
                   Loader.t_highSrc t = Loader.highSrc options)
        as (t & Ht & Hhigh).
      { destruct (Hl2 el) as [->| ->]; rewrite Hl1; eauto. }
      destruct (intersectionEntry_entry_kept w2 (el, true) el) as [->| ->];
        rewrite Ht; eauto.
Qed.

(** *** Use after teardown, and the tracker seen from the core *)

(** X18. The stability flag outlives [destroy]: if the orchestrator was
    stable SLOW when [destroy] was called, an image registered afterwards is
    upgraded as soon as the observer reports it visible, although the scroll
    listener is detached and no scroll sample can reach the core any more. *)
Theorem stable_flag_outlives_destroy w el options :
  reachable w → isSlowStable w = true →
  scrollListening
    (window (run (destroy w)
               [RegisterImage el options; Intersections [(el, true)]])) = false ∧
  isUpgraded el
    (run (destroy w) [RegisterImage el options; Intersections [(el, true)]])
    = true.
Proof.
  intros Hr Hst.
  change (run (destroy w) [RegisterImage el options; Intersections [(el, true)]])
    with (step (step (step w Destroy) (RegisterImage el options))
            (Intersections [(el, true)])).
  set (w1 := step (step w Destroy) (RegisterImage el options)).
  assert (reachable w1) as Hr1 by (by do 2 constructor).
  assert (reachable (step w1 (Intersections [(el, true)]))) as Hr2
    by (by constructor).
  assert (window w1 = window (destroy w) ∧ isSlowStable w1 = true ∧
          el ∈ registeredImages w1) as (Hw1 & Hst1 & Hel1).
  { unfold w1. simpl. rewrite registerImage_no_upgrade.
    destruct (registerAndObserve_fields el options (destroy w))
      as (_ & -> & -> & _ & _ & _ & _ & _ & -> & _).
    destruct (destroy_fields w) as (_ & -> & _).
    split_and!; [done..|]. apply elem_of_setAdd. by left. }
  destruct (reachable_sound w1 Hr1) as (_ & Hc1 & _).
  assert (step w1 (Intersections [(el, true)])
          = intersectionEntry w1 (el, true)) as Heq.
  { simpl. unfold intersectionEvent.
    rewrite filter_cons_True by (simpl; by rewrite (coh_targets w1 Hc1)).
    by rewrite filter_nil. }
  destruct (intersectionEntry_fields w1 (el, true))
    as (_ & Hwin & Hreg & _ & _ & Hst2 & _ & Hvis).
  rewrite <- Heq in Hwin, Hreg, Hst2, Hvis.
  split.
  - rewrite Hwin, Hw1. by destruct (destroy_fields w) as (_ & _ & _ & _ & -> & _).
  - destruct (reachable_sound _ Hr2) as (_ & _ & Hs2). apply Hs2.
    + by rewrite Hst2.
    + by rewrite Hreg.
    + rewrite Hvis. simpl. by rewrite bool_decide_eq_true_2.
Qed.

Lemma stable_flag_outlives_destroy_witness :
  isUpgraded 9
    (run (destroy demoStable)
       [RegisterImage 9 demoOptions; Intersections [(9, true)]]) = true.
Proof.
  exact (proj2 (stable_flag_outlives_destroy demoStable 9 demoOptions
                  reachable_demoStable eq_refl)).
Defined.

Lemma step_keeps_speed_in_step w ev :
  currentSpeed w = Velocity.lastSpeed (velocityController w) →
  currentSpeed (step w ev) = Velocity.lastSpeed (velocityController (step w ev)).
Proof.
  intros H. destruct ev as [now y|id|entries|x options|]; simpl.
  - unfold scrollEvent. destruct (scrollListening (window w)); [|done].
    unfold velocityListener.
    match goal with |- context [handleSpeedChange ?x] =>
      destruct (handleSpeedChange_keeps x) as (_ & -> & -> & _) end.
    done.
  - unfold timerEvent. destruct (pending id (window w)); [|done].
    unfold slowTimerCallback. simpl.
    destruct (currentSpeed w) eqn:Hs; simpl; rewrite ?Hs; [done|].
    unfold attemptUpgradesForVisibleImages.
    set (w1 := setIsSlowStable true _).
    destruct (attempt_fold_frame (registeredImages w1) w1) as [s ->].
    simpl. by rewrite Hs.
  - unfold intersectionEvent, intersectionCallback.
    generalize (filter (λ e : nat * bool, e.1 ∈ Observer.targets (visibility w))
                  entries).
    intros l. revert w H. induction l as [|e l IH]; intros w H; simpl; [done|].
    apply IH. unfold intersectionEntry, visibilityListener. simpl.
    repeat case_match; try done.
    match goal with |- context [tryUpgradeImage ?x ?w1] =>
      by destruct (tryUpgradeImage_frame x w1) as [s ->] end.
  - rewrite registerImage_no_upgrade.
    by destruct (registerAndObserve_fields x options w)
      as (_ & _ & _ & _ & _ & -> & -> & _).
  - unfold destroy. simpl. by destruct (slowTimer w).
Qed.

(** X19. The orchestrator and the velocity tracker agree: in every
    reachable world the orchestrator's current speed is the speed the
    tracker last classified, and the tracker's threshold is the configured
    one. *)
Theorem core_agrees_with_tracker w :
  reachable w →
  currentSpeed w = Velocity.lastSpeed (velocityController w) ∧
  Velocity.slowVelocityThreshold (velocityController w)
    = slowVelocityThreshold (config w).
Proof.
  induction 1 as [config d scrollY now w Hc | w ev _ [IH1 IH2]].
  - by injection Hc as <-.
  - split; [by apply step_keeps_speed_in_step|].
    destruct (step_keeps_config w ev) as [-> ->]. done.
Qed.

Lemma core_agrees_with_tracker_witness :
  Velocity.lastSpeed (velocityController demoFast) = FAST ∧
  Velocity.slowVelocityThreshold (velocityController demoFast) = 0.4%float.
Proof.
  destruct (core_agrees_with_tracker demoFast reachable_demoFast) as [H1 H2].
  split; [rewrite <- H1; reflexivity | rewrite H2; reflexivity].
Defined.

End MoreFacts.
